(** * objectReaderSHM: reading detections from shared memory and rendering them

    A shallow embedding of [objectReaderSHM.py].  The script maps the POSIX
    shared-memory object [/dev/shm/ipc_yolov4_shm], reinterprets its first
    244 bytes as the ctypes structure [SharedData], turns the first [count]
    entries of its array into dictionaries, and draws them on an image with
    OpenCV.

    The embedding is organised as the script is:
    - bytes, C integers and C floats as ctypes reads them;
    - the two [Structure] classes, as views over a byte buffer;
    - the process environment (files, standard output, the calls made to
      the operating system and to OpenCV) threaded through a small
      state-and-exception monad;
    - [read_shared_memory], [render_detections] and [main]. *)

From Stdlib Require Import ZArith List String Ascii Lia QArith.
From Stdlib.Strings Require Import Byte.
From Stdlib Require Import SpecFloat DecimalString.
From stdpp Require Import gmap strings list.

Local Open Scope Z_scope.

(** ** Bytes and C scalars *)

(** The byte order of the platform: ctypes structures use the native one. *)
Inductive byteorder := LittleEndian | BigEndian.

Definition byte_to_Z (b : byte) : Z := Z.of_N (Byte.to_N b).

Definition byte_of_Z (z : Z) : byte :=
  match Byte.of_N (Z.to_N (z mod 256)) with
  | Some b => b
  | None => x00
  end.

(** Little-endian value of a byte string, least significant byte first. *)
Fixpoint le_to_Z (bs : list byte) : Z :=
  match bs with
  | [] => 0
  | b :: rest => byte_to_Z b + 256 * le_to_Z rest
  end.

Fixpoint Z_to_le (n : nat) (z : Z) : list byte :=
  match n with
  | O => []
  | S n' => byte_of_Z z :: Z_to_le n' (z / 256)
  end.

Definition unsigned_of_bytes (order : byteorder) (bs : list byte) : Z :=
  match order with
  | LittleEndian => le_to_Z bs
  | BigEndian => le_to_Z (rev bs)
  end.

Definition bytes_of_unsigned (order : byteorder) (n : nat) (z : Z) : list byte :=
  match order with
  | LittleEndian => Z_to_le n z
  | BigEndian => rev (Z_to_le n z)
  end.

(** Python's [p[a:a+n]] on a byte buffer. *)
Definition slice (off len : nat) (buf : list byte) : list byte :=
  take len (drop off buf).

(** *** [c_int]: 32 bits, two's complement *)

Definition INT_MIN : Z := - 2 ^ 31.
Definition INT_MAX : Z := 2 ^ 31 - 1.

Definition to_signed32 (u : Z) : Z := if u <? 2 ^ 31 then u else u - 2 ^ 32.

Definition c_int_get (order : byteorder) (bs : list byte) : Z :=
  to_signed32 (unsigned_of_bytes order bs).

Definition c_int_pack (order : byteorder) (v : Z) : list byte :=
  bytes_of_unsigned order 4 (v mod 2 ^ 32).

(** *** [c_float]: IEEE 754 binary32

    A Python [float] is modelled by the value it denotes, as a [spec_float]
    (sign, mantissa, binary exponent).  The getter of a [c_float] field
    widens the C float to a double, which is exact, so the value read is the
    binary32 value itself. *)

Definition pyfloat := spec_float.

Definition b32_of_bits (u : Z) : pyfloat :=
  let s := 0 <? u / 2 ^ 31 in
  let E := (u / 2 ^ 23) mod 2 ^ 8 in
  let frac := u mod 2 ^ 23 in
  if E =? 0 then
    match frac with
    | Zpos m => S754_finite s m (-149)
    | _ => S754_zero s
    end
  else if E =? 255 then
    (if frac =? 0 then S754_infinity s else S754_nan)
  else
    match frac + 2 ^ 23 with
    | Zpos m => S754_finite s m (E - 150)
    | _ => S754_nan
    end.

(** The bit pattern a C producer stores for a binary32 value (NaN as the
    default quiet NaN). *)
Definition bits_of_b32 (f : pyfloat) : Z :=
  let sign (s : bool) := if s then 2 ^ 31 else 0 in
  match f with
  | S754_zero s => sign s
  | S754_infinity s => sign s + 255 * 2 ^ 23
  | S754_nan => 255 * 2 ^ 23 + 2 ^ 22
  | S754_finite s m e =>
      if Zpos m <? 2 ^ 23 then sign s + Zpos m
      else sign s + (e + 150) * 2 ^ 23 + (Zpos m - 2 ^ 23)
  end.

Definition valid_binary32 (f : pyfloat) : Prop := valid_binary 24 128 f = true.

Definition c_float_get (order : byteorder) (bs : list byte) : pyfloat :=
  b32_of_bits (unsigned_of_bytes order bs).

Definition c_float_pack (order : byteorder) (f : pyfloat) : list byte :=
  bytes_of_unsigned order 4 (bits_of_b32 f).

(** ** Python exceptions *)

(** An exception is kept as [str(e)], which is all the script uses of it. *)
Inductive exn := Exception (msg : string).

Definition str_exn (e : exn) : string := let 'Exception msg := e in msg.

(** ** The ctypes structures *)

Definition SHM_NAME : string := "/ipc_yolov4_shm".
Definition MAX_BOXES : Z := 10.

(** A detection as the dictionary [read_shared_memory] builds. *)
Record det := mk_det {
  det_class_id : Z;
  det_confidence : pyfloat;
  det_x : Z;
  det_y : Z;
  det_w : Z;
  det_h : Z
}.

(** [class Detection(Structure)]: six 4-byte fields, each at a multiple of
    its alignment, so the layout has no padding. *)
Module Detection.
Definition sizeof : nat := 24.

Section Fields.
Variable order : byteorder.
Variable buf : list byte.

Definition class_id : Z := c_int_get order (slice 0 4 buf).
Definition confidence : pyfloat := c_float_get order (slice 4 4 buf).
Definition x : Z := c_int_get order (slice 8 4 buf).
Definition y : Z := c_int_get order (slice 12 4 buf).
Definition w : Z := c_int_get order (slice 16 4 buf).
Definition h : Z := c_int_get order (slice 20 4 buf).
End Fields.

(** The bytes of a structure holding the fields of [d]. *)
Definition pack (order : byteorder) (d : det) : list byte :=
  c_int_pack order (det_class_id d) ++
  c_float_pack order (det_confidence d) ++
  c_int_pack order (det_x d) ++
  c_int_pack order (det_y d) ++
  c_int_pack order (det_w d) ++
  c_int_pack order (det_h d).
End Detection.

(** [class SharedData(Structure)]: [count], then [Detection * MAX_BOXES]. *)
Module SharedData.
Definition sizeof : nat := 4 + Z.to_nat MAX_BOXES * Detection.sizeof.

(** [SharedData.from_buffer_copy(b)]: a copy of the first [sizeof] bytes;
    a shorter buffer is refused. *)
Definition from_buffer_copy (b : list byte) : exn + list byte :=
  if (length b <? sizeof)%nat
  then inl (Exception ("Buffer size too small (" +:+
                       NilZero.string_of_uint (Nat.to_uint (length b)) +:+
                       " instead of at least 244 bytes)"))
  else inr (take sizeof b).

Definition count (order : byteorder) (shared : list byte) : Z :=
  c_int_get order (slice 0 4 shared).

(** [shared.det[i]]: a negative index counts from the end; the array then
    checks the index against its length and raises [IndexError] outside it. *)
Definition det (shared : list byte) (i : Z) : exn + list byte :=
  let i := if i <? 0 then i + MAX_BOXES else i in
  if (0 <=? i) && (i <? MAX_BOXES)
  then inr (slice (4 + Z.to_nat i * Detection.sizeof) Detection.sizeof shared)
  else inl (Exception "invalid index").
End SharedData.

Definition valid_c_int (v : Z) : Prop := INT_MIN <= v <= INT_MAX.

Definition valid_det (d : det) : Prop :=
  valid_c_int (det_class_id d) /\ valid_binary32 (det_confidence d) /\
  valid_c_int (det_x d) /\ valid_c_int (det_y d) /\
  valid_c_int (det_w d) /\ valid_c_int (det_h d).

(** ** Python strings and formatting *)

Definition newline : string := String (ascii_of_nat 10) "".

(** [str(n)] for an [int]. *)
Definition str_int (n : Z) : string := NilZero.string_of_int (Z.to_int n).

Definition len {A} (l : list A) : Z := Z.of_nat (length l).

(** The integer nearest to [n / d] for [0 < d], ties to the even one. *)
Definition round_half_even (n d : Z) : Z :=
  let q := n / d in
  let r := n mod d in
  if 2 * r <? d then q
  else if d <? 2 * r then q + 1
  else if Z.even q then q else q + 1.

Definition two_digits (n : Z) : string :=
  if n <? 10 then "0" +:+ str_int n else str_int n.

(** [format(v, '.2f')]: the exact binary value rounded to two decimals,
    ties to even; the sign is kept also when the digits are all zero. *)
Definition format_2f (v : pyfloat) : string :=
  match v with
  | S754_nan => "nan"
  | S754_infinity s => if s then "-inf" else "inf"
  | S754_zero s => (if s then "-" else "") +:+ "0.00"
  | S754_finite s m e =>
      let hundredths :=
        if 0 <=? e then Zpos m * 2 ^ e * 100
        else round_half_even (Zpos m * 100) (2 ^ (- e)) in
      (if s then "-" else "") +:+ str_int (hundredths / 100) +:+ "." +:+
      two_digits (hundredths mod 100)
  end.

(** *** [os.path.splitext] *)

Fixpoint rfind_from (s : string) (c : ascii) (i found : Z) : Z :=
  match s with
  | EmptyString => found
  | String a s' => rfind_from s' c (i + 1) (if Ascii.eqb a c then i else found)
  end.

(** [s.rfind(c)]: the highest index of [c] in [s], or [-1]. *)
Definition rfind (s : string) (c : ascii) : Z := rfind_from s c 0 (-1).

(** [s[:n]] and [s[n:]]. *)
Fixpoint str_take (n : nat) (s : string) : string :=
  match n, s with
  | S n', String a s' => String a (str_take n' s')
  | _, _ => EmptyString
  end.

Fixpoint str_drop (n : nat) (s : string) : string :=
  match n, s with
  | S n', String _ s' => str_drop n' s'
  | _, _ => s
  end.

(** The loop of [genericpath._splitext] that skips the leading dots of the
    file name: [iterations] is [dotIndex - filenameIndex], the number of
    times the loop test can still succeed. *)
Fixpoint splitext_scan (p : string) (dotIndex : Z) (iterations : nat)
    (filenameIndex : Z) : option (string * string) :=
  match iterations with
  | O => None
  | S n =>
      if negb (String.eqb (str_take 1 (str_drop (Z.to_nat filenameIndex) p)) ".")
      then Some (str_take (Z.to_nat dotIndex) p, str_drop (Z.to_nat dotIndex) p)
      else splitext_scan p dotIndex n (filenameIndex + 1)
  end.

Definition splitext (p : string) : string * string :=
  let sepIndex := rfind p "/" in
  let dotIndex := rfind p "." in
  if sepIndex <? dotIndex then
    match splitext_scan p dotIndex (Z.to_nat (dotIndex - (sepIndex + 1))) (sepIndex + 1) with
    | Some r => r
    | None => (p, "")
    end
  else (p, "").

(** ** The process environment *)

(** A file as this process sees it: whether it may read it, and its bytes. *)
Record file := File {
  readable : bool;
  data : list byte
}.

Definition point : Type := Z * Z.
Definition color : Type := Z * Z * Z.

(** The calls made to the operating system and to OpenCV, in order. *)
Inductive event :=
| EvExists (path : string)
| EvOpen (path : string)
| EvMmap (fd : string) (length : nat)
| EvMmapClose
| EvClose (fd : string)
| EvImread (path : string)
| EvRectangle (pt1 pt2 : point) (c : color) (thickness : Z)
| EvPutText (text : string) (org : point) (font : Z) (scale : Q) (c : color)
    (thickness : Z)
| EvImwrite (path : string).

Record World := mkWorld {
  fs : gmap string file;
  stdout : list string;
  trace : list event
}.

(** The environment after more calls, and after more printed lines. *)
Definition add_trace (evs : list event) (w : World) : World :=
  mkWorld (fs w) (stdout w) (trace w ++ evs).

Definition add_stdout (lines : list string) (w : World) : World :=
  mkWorld (fs w) (stdout w ++ lines) (trace w).

(** A computation reads and updates the environment and either returns a
    value or raises an exception. *)
Definition M (A : Type) : Type := World → (exn + A) * World.

#[global] Instance M_ret : MRet M := λ A a w, (inr a, w).

#[global] Instance M_bind : MBind M := λ A B f m w,
  match m w with
  | (inr a, w') => f a w'
  | (inl e, w') => (inl e, w')
  end.

Definition raise {A} (e : exn) : M A := λ w, (inl e, w).

(** [try: body except Exception as e: handler e]. *)
Definition try_except {A} (body : M A) (handler : exn → M A) : M A := λ w,
  match body w with
  | (inl e, w') => handler e w'
  | r => r
  end.

Definition lift_exn {A} (r : exn + A) : M A := λ w, (r, w).

Definition emit (ev : event) : M unit := λ w,
  (inr (), mkWorld (fs w) (stdout w) (trace w ++ [ev])).

Definition print (line : string) : M unit := λ w,
  (inr (), mkWorld (fs w) (stdout w ++ [line]) (trace w)).

Definition get_file (path : string) : M (option file) := λ w,
  (inr (fs w !! path), w).

Definition put_file (path : string) (f : file) : M unit := λ w,
  (inr (), mkWorld (<[path := f]> (fs w)) (stdout w) (trace w)).

(** [for a in l: body], the loop's variables threaded through [s]. *)
Fixpoint for_each {A S} (l : list A) (body : A → S → M S) (s : S) : M S :=
  match l with
  | [] => mret s
  | a :: l' => s' ← body a s; for_each l' body s'
  end.

(** [range(n)]: empty for [n <= 0]. *)
Definition range (n : Z) : list Z := Z.of_nat <$> seq 0 (Z.to_nat n).

Fixpoint enumerate_from {A} (i : Z) (l : list A) : list (Z * A) :=
  match l with
  | [] => []
  | a :: l' => (i, a) :: enumerate_from (i + 1) l'
  end.

Definition enumerate {A} (l : list A) : list (Z * A) := enumerate_from 0 l.

(** *** [os] and [mmap] *)

Definition os_path_exists (path : string) : M bool :=
  emit (EvExists path);;
  f ← get_file path;
  mret (bool_decide (is_Some f)).

(** [os.open(path, os.O_RDONLY)]; the descriptor is identified with the file
    it is open on. *)
Definition os_open (path : string) : M string :=
  emit (EvOpen path);;
  f ← get_file path;
  match f with
  | None =>
      raise (Exception ("[Errno 2] No such file or directory: '" +:+ path +:+ "'"))
  | Some f =>
      if readable f then mret path
      else raise (Exception ("[Errno 13] Permission denied: '" +:+ path +:+ "'"))
  end.

Definition os_close (fd : string) : M unit := emit (EvClose fd).

(** [mmap.mmap(fd, length, MAP_SHARED, PROT_READ)] followed by [shm[:]]: the
    first [length] bytes of the file ([length = 0] asks for the whole file);
    a file shorter than [length] cannot be mapped. *)
Definition mmap_mmap (fd : string) (length : nat) : M (list byte) :=
  emit (EvMmap fd length);;
  f ← get_file fd;
  match f with
  | None => raise (Exception "[Errno 9] Bad file descriptor")
  | Some f =>
      if (length =? 0)%nat then
        (if (List.length (data f) =? 0)%nat
         then raise (Exception "cannot mmap an empty file")
         else mret (data f))
      else if (List.length (data f) <? length)%nat
      then raise (Exception "mmap length is greater than file size")
      else mret (take length (data f))
  end.

Definition mmap_close : M unit := emit EvMmapClose.

(** *** OpenCV

    The library is an interface: what it decodes, draws and encodes is left
    to the instance.  [imread] gives no image for a file it cannot decode,
    the drawing functions may refuse their arguments, and [imwrite] may
    write the encoded file, return [False], or raise. *)

Inductive imwrite_result :=
| WriteOk (encoded : list byte)
| WriteFalse
| WriteRaise (e : exn).

Class Cv2 := {
  Mat : Type;
  cv_imdecode : list byte → option Mat;
  cv_rectangle : Mat → point → point → color → Z → exn + Mat;
  cv_putText : Mat → string → point → Z → Q → color → Z → exn + Mat;
  cv_imwrite : string → Mat → imwrite_result
}.

Definition FONT_HERSHEY_SIMPLEX : Z := 0.

(** ** The script *)

Section Script.
Context `{cv : Cv2}.
Variable order : byteorder.

Definition cv2_imread (path : string) : M (option Mat) :=
  emit (EvImread path);;
  f ← get_file path;
  mret (match f with
        | Some f => if readable f then cv_imdecode (data f) else None
        | None => None
        end).

Definition cv2_rectangle (img : Mat) (pt1 pt2 : point) (c : color)
    (thickness : Z) : M Mat :=
  emit (EvRectangle pt1 pt2 c thickness);;
  lift_exn (cv_rectangle img pt1 pt2 c thickness).

Definition cv2_putText (img : Mat) (text : string) (org : point) (font : Z)
    (scale : Q) (c : color) (thickness : Z) : M Mat :=
  emit (EvPutText text org font scale c thickness);;
  lift_exn (cv_putText img text org font scale c thickness).

Definition cv2_imwrite (path : string) (img : Mat) : M bool :=
  emit (EvImwrite path);;
  match cv_imwrite path img with
  | WriteOk encoded => put_file path (File true encoded);; mret true
  | WriteFalse => mret false
  | WriteRaise e => raise e
  end.

(** The dictionary built from [shared.det[i]]. *)
Definition det_of_struct (buf : list byte) : det :=
  {| det_class_id := Detection.class_id order buf;
     det_confidence := Detection.confidence order buf;
     det_x := Detection.x order buf;
     det_y := Detection.y order buf;
     det_w := Detection.w order buf;
     det_h := Detection.h order buf |}.

Definition shm_path : string := "/dev/shm" +:+ SHM_NAME.

(** The body of the loop of [read_shared_memory]: the list [detections]
    is appended to in place, so it is the loop's state. *)
Definition append_detection (shared : list byte) (i : Z)
    (detections : list det) : M (list det) :=
  d ← lift_exn (SharedData.det shared i);
  mret (detections ++ [det_of_struct d]).

Definition read_shared_memory : M (option (list det)) :=
  try_except
    (there ← os_path_exists shm_path;
     if negb there then
       print ("Error: Shared memory not found at " +:+ shm_path);;
       mret None
     else
       fd ← os_open shm_path;
       shm ← mmap_mmap fd SharedData.sizeof;
       shared ← lift_exn (SharedData.from_buffer_copy shm);
       detections ←
         for_each (range (SharedData.count order shared))
           (append_detection shared) [];
       mmap_close;;
       os_close fd;;
       mret (Some detections))
    (λ e,
       print ("Error reading shared memory: " +:+ str_exn e);;
       mret None).

Definition default_output_path (image_path : string) : string :=
  let '(base, ext) := splitext image_path in
  base +:+ "_detected" +:+ ext.

Definition label_of (d : det) : string :=
  "ID:" +:+ str_int (det_class_id d) +:+ " " +:+ format_2f (det_confidence d).

(** The body of the loop of [render_detections]: [img] is drawn on in
    place, so the image is the loop's state. *)
Definition draw_detection (d : det) (img : Mat) : M Mat :=
  let '(x, y, w, h) := (det_x d, det_y d, det_w d, det_h d) in
  img ← cv2_rectangle img (x, y) (x + w, y + h) (0, 255, 0) 2;
  cv2_putText img (label_of d) (x, Z.max 10 (y - 5))
    FONT_HERSHEY_SIMPLEX (6 # 10)%Q (0, 255, 0) 2.

Definition render_detections (image_path : string) (detections : list det)
    (output_path : option string) : M (option string) :=
  let output_path :=
    match output_path with
    | None => default_output_path image_path
    | Some p => p
    end in
  try_except
    (img ← cv2_imread image_path;
     match img with
     | None =>
         print ("Failed to load image: " +:+ image_path);;
         mret None
     | Some img =>
         print ("Rendering " +:+ str_int (len detections) +:+ " detection(s)...");;
         img ← for_each detections draw_detection img;
         cv2_imwrite output_path img;;
         print ("Saved to " +:+ output_path);;
         mret (Some output_path)
     end)
    (λ e,
       print ("Error rendering: " +:+ str_exn e);;
       mret None).

Definition detection_line (i : Z) (d : det) : string :=
  "  [" +:+ str_int i +:+ "] class_id=" +:+ str_int (det_class_id d) +:+
  " conf=" +:+ format_2f (det_confidence d) +:+
  " box=(" +:+ str_int (det_x d) +:+ "," +:+ str_int (det_y d) +:+ "," +:+
  str_int (det_w d) +:+ "," +:+ str_int (det_h d) +:+ ")".

Definition main (argv : list string) : M Z :=
  if negb (len argv =? 2) then
    print "Usage: python ipc_reader.py <image_path>";;
    print "Example: python ipc_reader.py sample.ppm";;
    print (newline +:+ "Note: Run ipc_yolov4_replica.py first to populate shared memory");;
    mret 1
  else
    let image_path := nth 1 argv "" in
    there ← os_path_exists image_path;
    if negb there then
      print ("Error: Image not found: " +:+ image_path);;
      mret 1
    else
      detections ← read_shared_memory;
      match detections with
      | None => mret 1
      | Some detections =>
          print ("Read " +:+ str_int (len detections) +:+
                 " detection(s) from shared memory:");;
          for_each (enumerate detections)
            (λ '(i, d) _, print (detection_line i d)) ();;
          render_detections image_path detections None;;
          mret 0
      end.

(** [sys.exit(main())]: the exit status of the process and the environment
    it leaves; an exception that escapes [main] ends the process with
    status 1. *)
Definition exit_status (argv : list string) (w : World) : Z * World :=
  match main argv w with
  | (inr status, w') => (status, w')
  | (inl _, w') => (1, w')
  end.

End Script.

(** The lines of the usage message, as [main] prints them. *)
Definition usage : list string :=
  [ "Usage: python ipc_reader.py <image_path>";
    "Example: python ipc_reader.py sample.ppm";
    newline +:+ "Note: Run ipc_yolov4_replica.py first to populate shared memory" ].

(** ** A small OpenCV instance to run the script on

    An image is its pixel bytes and the marks drawn on it.  A file decodes
    when it starts with the magic number [P6] of a binary PPM; drawing always
    succeeds; an image is written by its pixel bytes followed by one byte per
    mark, to a path that has an extension. *)

Inductive mark :=
| Rect (pt1 pt2 : point) (c : color) (thickness : Z)
| Text (text : string) (org : point) (font : Z) (scale : Q) (c : color)
    (thickness : Z).

#[global] Instance canvas : Cv2 := {|
  Mat := list byte * list mark;
  cv_imdecode := λ bs,
    match bs with
    | x50 :: x36 :: _ => Some (bs, [])
    | _ => None
    end;
  cv_rectangle := λ img pt1 pt2 c t, inr (img.1, img.2 ++ [Rect pt1 pt2 c t]);
  cv_putText := λ img s org f sc c t, inr (img.1, img.2 ++ [Text s org f sc c t]);
  cv_imwrite := λ path img,
    match (splitext path).2 with
    | EmptyString =>
        WriteRaise (Exception "could not find a writer for the specified extension")
    | _ => WriteOk (img.1 ++ ((λ _, x2a) <$> img.2))
    end
|}.

(** A producer's segment: [count], the packed detections, and whatever
    follows them. *)
Definition segment (order : byteorder) (count : Z) (dets : list det)
    (rest : list byte) : list byte :=
  c_int_pack order count ++ (dets ≫= Detection.pack order) ++ rest.

(** The doubles and the binary32 value nearest to 0.87. *)
Definition double_0_87 : pyfloat := S754_finite false 7836263351624663 (-53).
Definition float_0_87 : pyfloat := S754_finite false 14596178 (-24).

(** An environment to run the script in: an image and the segment. *)
Definition sample_world (image : list byte) (shm : list byte) : World :=
  mkWorld (<["sample.ppm" := File true image]>
             (<["/dev/shm/ipc_yolov4_shm" := File true shm]> ∅)) [] [].

Definition ppm_image : list byte := [x50; x36; x0a; x31; x20; x31; x0a].

Definition det_3 (conf : pyfloat) : det :=
  {| det_class_id := 3; det_confidence := conf;
     det_x := 10; det_y := 20; det_w := 30; det_h := 40 |}.

(** ** Vocabulary of the statements *)

(** The calls by which [read_shared_memory] maps the segment. *)
Definition shm_events : list event :=
  [EvExists shm_path; EvOpen shm_path; EvMmap shm_path SharedData.sizeof].

Definition resolve_output (image_path : string) (output_path : option string)
    : string :=
  match output_path with
  | None => default_output_path image_path
  | Some p => p
  end.

Section Imread.
Context `{cv : Cv2}.

(** What [cv2.imread] gives for a path. *)
Definition imread_result (w : World) (path : string) : option Mat :=
  match fs w !! path with
  | Some f => if readable f then cv_imdecode (data f) else None
  | None => None
  end.
End Imread.

(** The events of drawing. *)
Definition is_draw (ev : event) : Prop :=
  match ev with
  | EvRectangle _ _ _ _ | EvPutText _ _ _ _ _ _ => True
  | _ => False
  end.

(** The lines [main] prints for the detections it read. *)
Definition listing (detections : list det) : list string :=
  ("Read " +:+ str_int (len detections) +:+ " detection(s) from shared memory:")
  :: ((λ '(i, d), detection_line i d) <$> enumerate detections).

Fixpoint occurs (c : ascii) (s : string) : bool :=
  match s with
  | EmptyString => false
  | String a s' => Ascii.eqb a c || occurs c s'
  end.

(** [base] names a file whose name has a character other than a dot: its
    last path component is not empty and not made of dots only. *)
Definition has_stem (base : string) : Prop :=
  ∃ dir c tail, base = dir +:+ String c tail ∧
                c ≠ "."%char ∧ c ≠ "/"%char ∧ occurs "/" tail = false.

(** [ext] is an extension: it has no dot and no path separator. *)
Definition is_extension (ext : string) : Prop :=
  occurs "." ext = false ∧ occurs "/" ext = false.

Definition contains (sub s : string) : Prop :=
  ∃ before after, s = before +:+ sub +:+ after.

(** An image file that cannot be decoded, next to a well-formed segment with
    no detection. *)
Definition undecodable_world : World :=
  sample_world [x6e; x6f; x70; x65] (segment LittleEndian 0 [] (replicate 240 x00)).

(** The array of a segment: two detections, then eight unused entries. *)
Definition sample_entries : list det :=
  [ det_3 float_0_87;
    mk_det 7 (S754_finite false 8388608 (-24)) (-4) 0 100 50 ] ++
  replicate 8 (mk_det 0 (S754_zero false) 0 0 0 0).

(** An environment without the shared-memory object. *)
Definition no_shm_world : World :=
  mkWorld (<["sample.ppm" := File true ppm_image]> ∅) [] [].

(** An environment whose image lies in a directory. *)
Definition shots_world : World :=
  mkWorld (<["shots/frame.ppm" := File true ppm_image]> ∅) [] [].

(** ** Closed forms of the two loops *)

(** Entry [i] of the array of a copied structure, as a dictionary. *)
Definition entry (order : byteorder) (shared : list byte) (i : Z) : det :=
  det_of_struct order
    (slice (4 + Z.to_nat i * Detection.sizeof) Detection.sizeof shared).

(** What the loop of [read_shared_memory] computes from the copied
    structure. *)
Definition read_entries (order : byteorder) (shared : list byte)
    : exn + list det :=
  let count := SharedData.count order shared in
  if count <=? MAX_BOXES then inr (entry order shared <$> range count)
  else inl (Exception "invalid index").

(** The two OpenCV calls that draw one detection. *)
Definition draw_events (d : det) : list event :=
  [ EvRectangle (det_x d, det_y d) (det_x d + det_w d, det_y d + det_h d)
      (0, 255, 0) 2;
    EvPutText (label_of d) (det_x d, Z.max 10 (det_y d - 5))
      FONT_HERSHEY_SIMPLEX (6 # 10)%Q (0, 255, 0) 2 ].

Section Drawing.
Context `{cv : Cv2}.

(** The image after the rectangle and the label of [d], if OpenCV accepts
    both. *)
Definition draw_one (d : det) (img : Mat) : exn + Mat :=
  match cv_rectangle img (det_x d, det_y d)
          (det_x d + det_w d, det_y d + det_h d) (0, 255, 0) 2 with
  | inl e => inl e
  | inr img1 =>
      cv_putText img1 (label_of d) (det_x d, Z.max 10 (det_y d - 5))
        FONT_HERSHEY_SIMPLEX (6 # 10)%Q (0, 255, 0) 2
  end.

Fixpoint draw_all (ds : list det) (img : Mat) : exn + Mat :=
  match ds with
  | [] => inr img
  | d :: ds' =>
      match draw_one d img with
      | inl e => inl e
      | inr img' => draw_all ds' img'
      end
  end.

(** The OpenCV calls the loop makes: it stops at the first call refused. *)
Fixpoint draw_trace (ds : list det) (img : Mat) : list event :=
  match ds with
  | [] => []
  | d :: ds' =>
      match cv_rectangle img (det_x d, det_y d)
              (det_x d + det_w d, det_y d + det_h d) (0, 255, 0) 2 with
      | inl _ => take 1 (draw_events d)
      | inr img1 =>
          draw_events d ++
          match cv_putText img1 (label_of d) (det_x d, Z.max 10 (det_y d - 5))
                  FONT_HERSHEY_SIMPLEX (6 # 10)%Q (0, 255, 0) 2 with
          | inl _ => []
          | inr img2 => draw_trace ds' img2
          end
      end
  end.
End Drawing.

(** [sub] occurs in [s]. *)
Fixpoint has_substring (sub s : string) : bool :=
  String.prefix sub s ||
  match s with
  | EmptyString => false
  | String _ s' => has_substring sub s'
  end.

(** An environment whose segment this process may not read, and one whose
    segment is too short to hold the structure. *)
Definition unreadable_shm_world : World :=
  mkWorld (<["sample.ppm" := File true ppm_image]>
             (<["/dev/shm/ipc_yolov4_shm" :=
                  File false (segment LittleEndian 2 sample_entries [])]> ∅))
    [] [].

Definition short_shm_world : World :=
  sample_world ppm_image (c_int_pack LittleEndian 1 ++ replicate 100 x00).

(** A second OpenCV instance: it refuses a rectangle with a corner outside
    the range of a C [int], and it cannot write any file. *)
Definition strict_canvas : Cv2 := {|
  Mat := list byte * list mark;
  cv_imdecode := λ bs,
    match bs with
    | x50 :: x36 :: _ => Some (bs, [])
    | _ => None
    end;
  cv_rectangle := λ img pt1 pt2 c t,
    if (INT_MIN <=? pt1.1) && (pt1.1 <=? INT_MAX) &&
       (INT_MIN <=? pt1.2) && (pt1.2 <=? INT_MAX) &&
       (INT_MIN <=? pt2.1) && (pt2.1 <=? INT_MAX) &&
       (INT_MIN <=? pt2.2) && (pt2.2 <=? INT_MAX)
    then inr (img.1, img.2 ++ [Rect pt1 pt2 c t])
    else inl (Exception "Can't parse 'pt2'. Sequence item with index 0 has a wrong type");
  cv_putText := λ img s org f sc c t, inr (img.1, img.2 ++ [Text s org f sc c t]);
  cv_imwrite := λ path img, WriteFalse
|}.

(** A detection whose right edge is beyond the range of a C [int]. *)
Definition det_overflow : det :=
  {| det_class_id := 1; det_confidence := float_0_87;
     det_x := 2147483647; det_y := 0; det_w := 1; det_h := 1 |}.

(** Segments for the sample environments: two detections in a full array;
    the same count and first entry followed by other bytes; a count beyond
    the capacity. *)
Definition segment_2 : list byte := segment LittleEndian 2 sample_entries [].

Definition segment_1 : list byte := segment LittleEndian 1 sample_entries [].

Definition segment_1_noise : list byte :=
  segment LittleEndian 1 [det_3 float_0_87] (replicate 216 xff).

Definition segment_11 : list byte := segment LittleEndian 11 sample_entries [].

(** * Properties *)

(** ** The model on examples *)

Example format_2f_literal : format_2f double_0_87 = "0.87".
Proof. reflexivity. Qed.

Example format_2f_c_float : format_2f float_0_87 = "0.87".
Proof. reflexivity. Qed.

(** 0.125 and 0.375 are ties: they round to the even hundredth. *)
Example format_2f_ties :
  format_2f (S754_finite false 1 (-3)) = "0.12" ∧
  format_2f (S754_finite false 3 (-3)) = "0.38" ∧
  format_2f (S754_finite true 1 (-10)) = "-0.00".
Proof. repeat split. Qed.

(** The bytes [52 b8 5e 3f] are the little-endian C float nearest to 0.87. *)
Example c_float_get_0_87 :
  c_float_get LittleEndian [x52; xb8; x5e; x3f] = float_0_87 ∧
  c_float_pack LittleEndian float_0_87 = [x52; xb8; x5e; x3f].
Proof. split; reflexivity. Qed.

Example c_int_get_minus_one :
  c_int_get LittleEndian [xff; xff; xff; xff] = -1 ∧
  c_int_get BigEndian [x00; x00; x01; x00] = 256.
Proof. split; reflexivity. Qed.

Example splitext_examples :
  splitext "sample.ppm" = ("sample", ".ppm") ∧
  splitext "a/b.c/file.tar.gz" = ("a/b.c/file.tar", ".gz") ∧
  splitext ".bashrc" = (".bashrc", "") ∧
  splitext "dir.d/file" = ("dir.d/file", "") ∧
  splitext "x/...a.b" = ("x/...a", ".b").
Proof. repeat split. Qed.

(** A whole run: two detections are read, listed and drawn. *)
Example main_sample_run :
  let r := exit_status (cv := canvas) LittleEndian
             ["objectReaderSHM.py"; "sample.ppm"]
             (sample_world ppm_image (segment LittleEndian 2 sample_entries [])) in
  r.1 = 0 ∧
  stdout r.2 =
    [ "Read 2 detection(s) from shared memory:";
      "  [0] class_id=3 conf=0.87 box=(10,20,30,40)";
      "  [1] class_id=7 conf=0.50 box=(-4,0,100,50)";
      "Rendering 2 detection(s)...";
      "Saved to sample_detected.ppm" ] ∧
  fs r.2 !! "sample_detected.ppm" = Some (File true (ppm_image ++ [x2a; x2a; x2a; x2a])).
Proof. vm_compute. repeat split. Qed.

(** ** Packing and reading C scalars *)

Lemma byte_to_Z_range (b : byte) : 0 <= byte_to_Z b < 256.
Proof.
  unfold byte_to_Z. pose proof (Byte.to_N_bounded b). lia.
Qed.

Lemma byte_to_of_Z (z : Z) : byte_to_Z (byte_of_Z z) = z mod 256.
Proof.
  unfold byte_to_Z, byte_of_Z.
  assert (Hr : 0 <= z mod 256 < 256) by (apply Z.mod_pos_bound; lia).
  destruct (Byte.of_N (Z.to_N (z mod 256))) as [b|] eqn:Hb.
  - apply Byte.to_of_N in Hb. rewrite Hb. lia.
  - apply Byte.of_N_None_iff in Hb. lia.
Qed.

Lemma Z_to_le_length (n : nat) (z : Z) : length (Z_to_le n z) = n.
Proof.
  revert z. induction n as [|n IH]; intros z; simpl; [done|]. by rewrite IH.
Qed.

Lemma le_to_Z_to_le (n : nat) (z : Z) :
  le_to_Z (Z_to_le n z) = z mod 256 ^ Z.of_nat n.
Proof.
  revert z. induction n as [|n IH]; intros z.
  - simpl. by rewrite Z.mod_1_r.
  - cbn [Z_to_le le_to_Z]. rewrite IH, byte_to_of_Z.
    rewrite Nat2Z.inj_succ, Z.pow_succ_r by lia.
    rewrite Z.rem_mul_r by lia. reflexivity.
Qed.

Lemma bytes_of_unsigned_length order n z :
  length (bytes_of_unsigned order n z) = n.
Proof.
  destruct order; simpl; rewrite ?length_rev; apply Z_to_le_length.
Qed.

Lemma unsigned_of_bytes_of_unsigned order n z :
  unsigned_of_bytes order (bytes_of_unsigned order n z) = z mod 256 ^ Z.of_nat n.
Proof.
  destruct order; simpl; rewrite ?rev_involutive; apply le_to_Z_to_le.
Qed.

Lemma c_int_pack_length order v : length (c_int_pack order v) = 4%nat.
Proof. apply bytes_of_unsigned_length. Qed.

Lemma c_float_pack_length order f : length (c_float_pack order f) = 4%nat.
Proof. apply bytes_of_unsigned_length. Qed.

(** Reading back a packed [c_int] gives the integer that was stored. *)
Lemma c_int_get_pack order v :
  valid_c_int v → c_int_get order (c_int_pack order v) = v.
Proof.
  unfold valid_c_int, INT_MIN, INT_MAX, c_int_get, c_int_pack, to_signed32.
  intros Hv. rewrite unsigned_of_bytes_of_unsigned.
  change (256 ^ Z.of_nat 4) with (2 ^ 32).
  rewrite Z.mod_mod by lia.
  change (2 ^ 32) with 4294967296 in *. change (2 ^ 31) with 2147483648 in *.
  destruct (Z.ltb_spec (v mod 4294967296) 2147483648);
    Z.div_mod_to_equations; lia.
Qed.

Lemma digits2_pos_bounds (m : positive) :
  2 ^ (Zpos (digits2_pos m) - 1) <= Zpos m < 2 ^ Zpos (digits2_pos m).
Proof.
  induction m as [m IH|m IH|]; cbn [digits2_pos].
  - rewrite Pos2Z.inj_succ, Z.pow_succ_r by lia.
    replace (Z.succ (Z.pos (digits2_pos m)) - 1)
      with (Z.succ (Z.pos (digits2_pos m) - 1)) by lia.
    rewrite Z.pow_succ_r by lia. lia.
  - rewrite Pos2Z.inj_succ, Z.pow_succ_r by lia.
    replace (Z.succ (Z.pos (digits2_pos m)) - 1)
      with (Z.succ (Z.pos (digits2_pos m) - 1)) by lia.
    rewrite Z.pow_succ_r by lia. lia.
  - simpl. lia.
Qed.

(** What validity says of a finite binary32: a subnormal has exponent -149,
    a normal one a 24-bit mantissa. *)
Lemma valid_binary32_finite s m e :
  valid_binary32 (S754_finite s m e) →
  (Zpos m < 2 ^ 23 ∧ e = -149) ∨
  (2 ^ 23 <= Zpos m < 2 ^ 24 ∧ -149 <= e <= 104).
Proof.
  unfold valid_binary32, valid_binary, bounded, canonical_mantissa, fexp, emin.
  intros H. apply andb_prop in H as [Hc He].
  apply Z.eqb_eq in Hc. apply Z.leb_le in He.
  pose proof (digits2_pos_bounds m) as [Hlo Hhi].
  set (d := Zpos (digits2_pos m)) in *.
  assert (Hd : 0 < d) by (subst d; lia).
  destruct (Z.lt_ge_cases (Zpos m) (2 ^ 23)) as [Hm|Hm].
  - left. split; [done|].
    assert (d <= 23).
    { destruct (Z.le_gt_cases d 23) as [|Hgt]; [done|].
      assert (2 ^ 23 <= 2 ^ (d - 1)) by (apply Z.pow_le_mono_r; lia). lia. }
    lia.
  - right.
    assert (24 <= d).
    { destruct (Z.le_gt_cases 24 d) as [|Hlt]; [done|].
      assert (2 ^ d <= 2 ^ 23) by (apply Z.pow_le_mono_r; lia). lia. }
    assert (d = 24) by lia.
    replace d with 24 in Hhi by lia. lia.
Qed.

Lemma bits_of_b32_range f :
  valid_binary32 f → 0 <= bits_of_b32 f < 2 ^ 32.
Proof.
  destruct f as [s|s| |s m e]; intros Hf; cbn [bits_of_b32].
  1-3: try destruct s; vm_compute; split; congruence.
  apply valid_binary32_finite in Hf.
  change (2 ^ 23) with 8388608 in *. change (2 ^ 24) with 16777216 in *.
  change (2 ^ 31) with 2147483648. change (2 ^ 32) with 4294967296.
  destruct (Z.ltb_spec (Zpos m) 8388608); destruct s; lia.
Qed.

(** Decoding the bits of a valid binary32 gives the value back. *)
Lemma b32_of_bits_of_b32 f :
  valid_binary32 f → b32_of_bits (bits_of_b32 f) = f.
Proof.
  destruct f as [s|s| |s m e]; intros Hf.
  1-3: by try destruct s.
  apply valid_binary32_finite in Hf.
  unfold b32_of_bits, bits_of_b32.
  change (2 ^ 23) with 8388608 in *. change (2 ^ 24) with 16777216 in *.
  change (2 ^ 31) with 2147483648. change (2 ^ 8) with 256.
  destruct (Z.ltb_spec (Zpos m) 8388608) as [Hm|Hm].
  - destruct Hf as [[_ ->]|[? _]]; [|lia].
    set (u := (if s then 2147483648 else 0) + Z.pos m).
    assert (Hs : (0 <? u / 2147483648) = s)
      by (subst u; destruct s; [apply Z.ltb_lt|apply Z.ltb_ge]; Z.div_mod_to_equations; lia).
    assert (HE : (u / 8388608) mod 256 = 0) by (subst u; destruct s; Z.div_mod_to_equations; lia).
    assert (Hfr : u mod 8388608 = Zpos m) by (subst u; destruct s; Z.div_mod_to_equations; lia).
    rewrite Hs, HE, Hfr. reflexivity.
  - destruct Hf as [[? _]|[Hm' He]]; [lia|].
    set (u := (if s then 2147483648 else 0) + (e + 150) * 8388608 +
              (Z.pos m - 8388608)).
    assert (Hs : (0 <? u / 2147483648) = s)
      by (subst u; destruct s; [apply Z.ltb_lt|apply Z.ltb_ge]; Z.div_mod_to_equations; lia).
    assert (HE : (u / 8388608) mod 256 = e + 150) by (subst u; destruct s; Z.div_mod_to_equations; lia).
    assert (Hfr : u mod 8388608 = Zpos m - 8388608) by (subst u; destruct s; Z.div_mod_to_equations; lia).
    rewrite Hs, HE, Hfr.
    destruct (Z.eqb_spec (e + 150) 0); [lia|].
    destruct (Z.eqb_spec (e + 150) 255); [lia|].
    replace (Z.pos m - 8388608 + 8388608) with (Zpos m) by lia.
    f_equal. lia.
Qed.

Lemma c_float_get_pack order f :
  valid_binary32 f → c_float_get order (c_float_pack order f) = f.
Proof.
  intros Hf. unfold c_float_get, c_float_pack.
  rewrite unsigned_of_bytes_of_unsigned.
  change (256 ^ Z.of_nat 4) with (2 ^ 32).
  rewrite Z.mod_small by (by apply bits_of_b32_range).
  by apply b32_of_bits_of_b32.
Qed.

(** ** The structures *)

Lemma length4 {A} (l : list A) :
  length l = 4%nat → ∃ a b c d, l = [a; b; c; d].
Proof.
  destruct l as [|a [|b [|c [|d [|]]]]]; simpl; try discriminate. eauto.
Qed.

Lemma Detection_pack_length order d :
  length (Detection.pack order d) = Detection.sizeof.
Proof.
  unfold Detection.pack.
  rewrite !length_app, !c_int_pack_length, c_float_pack_length. reflexivity.
Qed.

(** The dictionary read from a packed structure holds the packed fields. *)
Lemma det_of_struct_pack order d :
  valid_det d → det_of_struct order (Detection.pack order d) = d.
Proof.
  destruct d as [cid conf x y w h]. intros (H1 & H2 & H3 & H4 & H5 & H6).
  cbn [det_class_id det_confidence det_x det_y det_w det_h] in *.
  pose proof (c_int_get_pack order _ H1) as E1.
  pose proof (c_float_get_pack order _ H2) as E2.
  pose proof (c_int_get_pack order _ H3) as E3.
  pose proof (c_int_get_pack order _ H4) as E4.
  pose proof (c_int_get_pack order _ H5) as E5.
  pose proof (c_int_get_pack order _ H6) as E6.
  unfold det_of_struct, Detection.pack, Detection.class_id,
    Detection.confidence, Detection.x, Detection.y, Detection.w, Detection.h.
  cbn [det_class_id det_confidence det_x det_y det_w det_h].
  destruct (length4 _ (c_int_pack_length order cid)) as (?&?&?&?&P1).
  destruct (length4 _ (c_float_pack_length order conf)) as (?&?&?&?&P2).
  destruct (length4 _ (c_int_pack_length order x)) as (?&?&?&?&P3).
  destruct (length4 _ (c_int_pack_length order y)) as (?&?&?&?&P4).
  destruct (length4 _ (c_int_pack_length order w)) as (?&?&?&?&P5).
  destruct (length4 _ (c_int_pack_length order h)) as (?&?&?&?&P6).
  rewrite P1, P2, P3, P4, P5, P6 in *.
  unfold slice. cbn [app firstn skipn].
  by rewrite E1, E2, E3, E4, E5, E6.
Qed.

(** Entry [k] of the packed array, [24 * k] bytes into it. *)
Lemma packed_entry order (dets : list det) (rest : list byte) (k : nat) d :
  dets !! k = Some d →
  take Detection.sizeof (drop (k * Detection.sizeof)
    ((dets ≫= Detection.pack order) ++ rest)) = Detection.pack order d.
Proof.
  revert k. induction dets as [|d0 dets IH]; intros k Hk; [done|].
  rewrite bind_cons, <- app_assoc.
  destruct k as [|k].
  - injection Hk as ->. change (0 * Detection.sizeof)%nat with 0%nat.
    rewrite drop_0.
    by rewrite take_app_length' by (by rewrite Detection_pack_length).
  - replace (S k * Detection.sizeof)%nat
      with (Detection.sizeof + k * Detection.sizeof)%nat by lia.
    rewrite drop_app_add' by (by rewrite Detection_pack_length).
    by apply IH.
Qed.

(** [shared.det[k]] on the copy of a producer's segment is entry [k]. *)
Lemma SharedData_det_segment order count dets rest (k : nat) d :
  dets !! k = Some d →
  (k < 10)%nat →
  SharedData.det (take SharedData.sizeof (segment order count dets rest))
    (Z.of_nat k) = inr (Detection.pack order d).
Proof.
  intros Hk Hlt. unfold SharedData.det, MAX_BOXES.
  destruct (Z.ltb_spec (Z.of_nat k) 0); [lia|].
  destruct (Z.leb_spec 0 (Z.of_nat k)); [|lia].
  destruct (Z.ltb_spec (Z.of_nat k) 10); [|lia].
  cbn [andb]. f_equal. rewrite Nat2Z.id.
  unfold slice, segment.
  rewrite take_drop_commute, take_take.
  rewrite Nat.min_l by (unfold SharedData.sizeof, Detection.sizeof, MAX_BOXES;
                         change (Z.to_nat 10) with 10%nat; lia).
  rewrite <- take_drop_commute.
  rewrite drop_app_add' by (by rewrite c_int_pack_length).
  by apply packed_entry.
Qed.

Lemma SharedData_count_segment order count dets rest :
  valid_c_int count →
  SharedData.count order (take SharedData.sizeof (segment order count dets rest))
  = count.
Proof.
  intros Hc. unfold SharedData.count, slice, segment.
  destruct (length4 _ (c_int_pack_length order count)) as (a&b&c&d&E).
  rewrite E. change SharedData.sizeof with 244%nat.
  cbn [app firstn skipn]. rewrite take_0, <- E.
  by apply c_int_get_pack.
Qed.

(** ** Loops *)

Lemma for_each_app {A S} (l1 l2 : list A) (body : A → S → M S) (s : S) w :
  for_each (l1 ++ l2) body s w =
  match for_each l1 body s w with
  | (inr s', w') => for_each l2 body s' w'
  | (inl e, w') => (inl e, w')
  end.
Proof.
  revert s w. induction l1 as [|a l1 IH]; intros s w; [done|].
  cbn [app for_each]. unfold mbind, M_bind.
  destruct (body a s w) as [[e|s'] w']; [done|]. apply IH.
Qed.

Lemma for_each_cons {A S} (a : A) (l : list A) (body : A → S → M S) (s : S) w :
  for_each (a :: l) body s w =
  match body a s w with
  | (inr s', w') => for_each l body s' w'
  | (inl e, w') => (inl e, w')
  end.
Proof. reflexivity. Qed.

Lemma range_lookup (n : Z) (k : nat) :
  (k < Z.to_nat n)%nat → range n !! k = Some (Z.of_nat k).
Proof.
  intros Hk. unfold range. rewrite list_lookup_fmap, lookup_seq_lt by done.
  reflexivity.
Qed.

Lemma range_length (n : Z) : length (range n) = Z.to_nat n.
Proof. unfold range. by rewrite length_fmap, length_seq. Qed.

Lemma range_nonpos (n : Z) : n <= 0 → range n = [].
Proof.
  intros Hn. unfold range. by replace (Z.to_nat n) with 0%nat by lia.
Qed.

(** Beyond the capacity, the indices are those of the array, then the
    capacity itself. *)
Lemma range_beyond (n : Z) :
  MAX_BOXES < n → ∃ more, range n = range MAX_BOXES ++ MAX_BOXES :: more.
Proof.
  unfold MAX_BOXES, range. intros Hn.
  replace (Z.to_nat n) with (10 + S (Z.to_nat n - 11))%nat by lia.
  rewrite seq_app, fmap_app. cbn [seq Nat.add fmap list_fmap].
  eexists. reflexivity.
Qed.

Section ReadLoop.
Context `{cv : Cv2}.
Variable order : byteorder.

Lemma append_detection_eq shared i (acc : list det) (w : World) :
  append_detection order shared i acc w =
  match SharedData.det shared i with
  | inr b => (inr (acc ++ [det_of_struct order b]), w)
  | inl e => (inl e, w)
  end.
Proof.
  unfold append_detection, mbind, M_bind, lift_exn.
  by destruct (SharedData.det shared i).
Qed.

(** While the indices stay within the array the loop appends one
    dictionary per index and leaves the environment alone. *)
Lemma read_loop_ok shared (idx : list Z) (ds acc : list det) (w : World) :
  Forall2 (λ i d, ∃ b, SharedData.det shared i = inr b ∧
                       det_of_struct order b = d) idx ds →
  for_each idx (append_detection order shared) acc w = (inr (acc ++ ds), w).
Proof.
  intros H. revert acc. induction H as [|i d idx ds (b & Hb & Hd) _ IH]; intros acc.
  - cbn. by rewrite app_nil_r.
  - rewrite for_each_cons, append_detection_eq, Hb, IH, Hd, <- app_assoc.
    reflexivity.
Qed.

Lemma read_loop_in_bounds shared (idx : list Z) (acc : list det) (w : World) :
  Forall (λ i, 0 <= i < MAX_BOXES) idx →
  ∃ ds, for_each idx (append_detection order shared) acc w = (inr ds, w).
Proof.
  intros H. eexists. apply read_loop_ok with (ds :=
    (λ i, det_of_struct order
            (slice (4 + Z.to_nat i * Detection.sizeof) Detection.sizeof shared))
    <$> idx).
  induction H as [|i idx Hi _ IH]; constructor; [|done].
  eexists. split; [|reflexivity]. unfold SharedData.det.
  destruct (Z.ltb_spec i 0); [lia|].
  destruct (Z.leb_spec 0 i); [|lia]. destruct (Z.ltb_spec i MAX_BOXES); [|lia].
  reflexivity.
Qed.

(** An index at or beyond the capacity stops the loop with [IndexError]. *)
Lemma read_loop_beyond shared (n : Z) (w : World) :
  MAX_BOXES < n →
  for_each (range n) (append_detection order shared) [] w
  = (inl (Exception "invalid index"), w).
Proof.
  intros Hn. destruct (range_beyond n Hn) as [more ->].
  rewrite for_each_app.
  destruct (read_loop_in_bounds shared (range MAX_BOXES) [] w) as [ds ->].
  { by vm_compute; repeat constructor. }
  by rewrite for_each_cons, append_detection_eq.
Qed.
End ReadLoop.

(** ** [read_shared_memory] *)

Section Read.
Variable order : byteorder.

(** On a segment that can be opened and is long enough to be mapped, the
    function is its loop over the copied structure, between the calls that
    map and release the segment; an exception of the loop is reported. *)
Lemma read_shared_memory_mapped (w : World) (f : file) :
  fs w !! shm_path = Some f →
  readable f = true →
  (SharedData.sizeof ≤ length (data f))%nat →
  read_shared_memory order w =
  let shared := take SharedData.sizeof (data f) in
  match for_each (range (SharedData.count order shared))
          (append_detection order shared) [] (add_trace shm_events w) with
  | (inr ds, w') => (inr (Some ds), add_trace [EvMmapClose; EvClose shm_path] w')
  | (inl e, w') =>
      (inr None, add_stdout ["Error reading shared memory: " +:+ str_exn e] w')
  end.
Proof.
  intros Hf Hr Hlen.
  unfold read_shared_memory, try_except, os_path_exists, os_open, mmap_mmap,
    mmap_close, os_close, emit, get_file, print, lift_exn, mbind, M_bind,
    mret, M_ret.
  cbn [fs stdout trace].
  rewrite Hf, bool_decide_eq_true_2 by eauto. cbn [negb fs stdout trace].
  rewrite Hf, Hr. cbn [fs stdout trace]. rewrite Hf.
  change (SharedData.sizeof =? 0)%nat with false. cbn match.
  destruct (Nat.ltb_spec (length (data f)) SharedData.sizeof) as [|_]; [lia|].
  unfold SharedData.from_buffer_copy.
  rewrite length_take, Nat.min_l, Nat.ltb_irrefl, take_idemp by done.
  unfold add_trace, shm_events. cbn [fs stdout trace].
  rewrite <- !app_assoc. cbn [app].
  destruct (for_each _ _ _ _) as [[e|ds] w']; [done|].
  by rewrite <- app_assoc.
Qed.
End Read.

Section ReadSegment.
Variable order : byteorder.

(** On a producer's segment whose first [length dets] entries are [dets],
    with that count, the reader returns [dets]. *)
Lemma read_shared_memory_segment (w : World) (f : file) (dets : list det)
    (rest : list byte) :
  (length dets ≤ 10)%nat →
  Forall valid_det dets →
  fs w !! shm_path = Some f →
  readable f = true →
  data f = segment order (len dets) dets rest →
  (SharedData.sizeof ≤ length (data f))%nat →
  read_shared_memory order w =
  (inr (Some dets), add_trace (shm_events ++ [EvMmapClose; EvClose shm_path]) w).
Proof.
  intros Hn Hv Hf Hr Hd Hlen.
  rewrite (read_shared_memory_mapped order w f Hf Hr Hlen). cbn zeta.
  rewrite Hd, SharedData_count_segment
    by (unfold valid_c_int, INT_MIN, INT_MAX, len; lia).
  rewrite (read_loop_ok order _ _ dets).
  - unfold add_trace. cbn [fs stdout trace app]. by rewrite <- app_assoc.
  - apply Forall2_same_length_lookup_2.
    + unfold len. by rewrite range_length, Nat2Z.id.
    + intros k i d Hi Hk.
      assert (Hkn : (k < length dets)%nat) by (by eapply lookup_lt_Some).
      rewrite range_lookup in Hi by (unfold len; lia). injection Hi as <-.
      exists (Detection.pack order d). split.
      * apply SharedData_det_segment; [done|lia].
      * apply det_of_struct_pack. by eapply Forall_lookup_1.
Qed.
End ReadSegment.

(** C1: on a well-formed segment (it can be opened, its count field is [N]
    with [0 <= N <= 10], it holds the 10-entry array and is followed by any
    bytes), [read_shared_memory] returns exactly [N] records: the first [N]
    entries of the array, field by field, in array order.  The entries beyond
    [N] may hold anything; nothing is printed and no file is changed. *)
Theorem read_shared_memory_returns_first_N (order : byteorder) (w : World)
    (f : file) (N : Z) (entries : list det) (extra : list byte) :
  0 <= N <= 10 →
  length entries = 10%nat →
  Forall valid_det (take (Z.to_nat N) entries) →
  fs w !! shm_path = Some f →
  readable f = true →
  data f = segment order N entries extra →
  read_shared_memory order w =
  (inr (Some (take (Z.to_nat N) entries)),
   add_trace (shm_events ++ [EvMmapClose; EvClose shm_path]) w) ∧
  len (take (Z.to_nat N) entries) = N.
Proof.
  intros HN Hlen Hv Hf Hr Hd.
  assert (Hlt : length (take (Z.to_nat N) entries) = Z.to_nat N)
    by (rewrite length_take; lia).
  split; [|unfold len; lia].
  apply read_shared_memory_segment
    with (f := f) (rest := (drop (Z.to_nat N) entries ≫= Detection.pack order) ++ extra);
    try done.
  - lia.
  - rewrite Hd. unfold segment, len. rewrite Hlt, Z2Nat.id by lia.
    rewrite (app_assoc (_ ≫= _)), <- bind_app, take_drop. reflexivity.
  - rewrite Hd. unfold segment.
    rewrite !length_app, c_int_pack_length.
    assert (length (entries ≫= Detection.pack order) = 240%nat); [|unfold SharedData.sizeof, MAX_BOXES, Detection.sizeof; simpl; lia].
    clear -Hlen.
    do 11 (destruct entries as [|? entries]; try discriminate).
    rewrite !bind_cons, !length_app, !Detection_pack_length. reflexivity.
Qed.

(** C2: when the count field exceeds the capacity 10, the count is not
    clamped: the loop reaches index 10, the array refuses it, and the
    function reports the error and returns [None]; no record is returned and
    nothing is read beyond the array. *)
Theorem read_shared_memory_count_beyond_capacity (order : byteorder)
    (w : World) (f : file) :
  fs w !! shm_path = Some f →
  readable f = true →
  (SharedData.sizeof ≤ length (data f))%nat →
  MAX_BOXES < SharedData.count order (take SharedData.sizeof (data f)) →
  read_shared_memory order w =
  (inr None,
   add_stdout ["Error reading shared memory: invalid index"]
     (add_trace shm_events w)).
Proof.
  intros Hf Hr Hlen Hc.
  rewrite (read_shared_memory_mapped order w f Hf Hr Hlen). cbn zeta.
  by rewrite read_loop_beyond.
Qed.

(** C10: when the count field is negative the loop has no iteration: the
    function returns the empty list, not [None], and prints nothing. *)
Theorem read_shared_memory_negative_count (order : byteorder) (w : World)
    (f : file) :
  fs w !! shm_path = Some f →
  readable f = true →
  (SharedData.sizeof ≤ length (data f))%nat →
  SharedData.count order (take SharedData.sizeof (data f)) < 0 →
  read_shared_memory order w =
  (inr (Some []),
   add_trace (shm_events ++ [EvMmapClose; EvClose shm_path]) w).
Proof.
  intros Hf Hr Hlen Hc.
  rewrite (read_shared_memory_mapped order w f Hf Hr Hlen). cbn zeta.
  rewrite range_nonpos by lia. cbn.
  unfold add_trace. cbn [fs stdout trace]. by rewrite <- app_assoc.
Qed.

(** ** [render_detections] *)

Section Render.
Context `{cv : Cv2}.

(** The function, path by path. *)
Lemma render_detections_eq image_path detections output_path (w : World) :
  render_detections image_path detections output_path w =
  let out := resolve_output image_path output_path in
  let w0 := add_trace [EvImread image_path] w in
  match imread_result w image_path with
  | None => (inr None, add_stdout ["Failed to load image: " +:+ image_path] w0)
  | Some img =>
      match for_each detections draw_detection img
              (add_stdout ["Rendering " +:+ str_int (len detections) +:+
                           " detection(s)..."] w0) with
      | (inl e, w1) =>
          (inr None, add_stdout ["Error rendering: " +:+ str_exn e] w1)
      | (inr img', w1) =>
          let w2 := add_trace [EvImwrite out] w1 in
          match cv_imwrite out img' with
          | WriteOk encoded =>
              (inr (Some out),
               add_stdout ["Saved to " +:+ out]
                 (mkWorld (<[out := File true encoded]> (fs w2)) (stdout w2)
                    (trace w2)))
          | WriteFalse => (inr (Some out), add_stdout ["Saved to " +:+ out] w2)
          | WriteRaise e =>
              (inr None, add_stdout ["Error rendering: " +:+ str_exn e] w2)
          end
      end
  end.
Proof.
  unfold render_detections, try_except, cv2_imread, cv2_imwrite, emit,
    get_file, put_file, print, raise, mbind, M_bind, mret, M_ret,
    imread_result, add_trace, add_stdout.
  fold (resolve_output image_path output_path).
  cbn [fs stdout trace].
  destruct (fs w !! image_path) as [f|]; [destruct (readable f)|]; try done.
  destruct (cv_imdecode (data f)) as [img|]; [|done].
  destruct (for_each _ _ _ _) as [[e|img'] w1]; [done|].
  cbn [fs stdout trace].
  by destruct (cv_imwrite _ img').
Qed.
End Render.

Lemma add_trace_add_trace evs1 evs2 w :
  add_trace evs2 (add_trace evs1 w) = add_trace (evs1 ++ evs2) w.
Proof. unfold add_trace. cbn [fs stdout trace]. by rewrite app_assoc. Qed.

Lemma add_stdout_add_stdout l1 l2 w :
  add_stdout l2 (add_stdout l1 w) = add_stdout (l1 ++ l2) w.
Proof. unfold add_stdout. cbn [fs stdout trace]. by rewrite app_assoc. Qed.

Lemma print_eq line w : print line w = (inr (), add_stdout [line] w).
Proof. reflexivity. Qed.

Lemma add_trace_nil w : add_trace [] w = w.
Proof. destruct w. unfold add_trace. cbn. by rewrite app_nil_r. Qed.

Section RenderLoop.
Context `{cv : Cv2}.

Lemma draw_detection_eq d img (w : World) :
  draw_detection d img w =
  let pt1 := (det_x d, det_y d) in
  let pt2 := (det_x d + det_w d, det_y d + det_h d) in
  let org := (det_x d, Z.max 10 (det_y d - 5)) in
  let ev1 := EvRectangle pt1 pt2 (0, 255, 0) 2 in
  let ev2 := EvPutText (label_of d) org FONT_HERSHEY_SIMPLEX (6 # 10)%Q
               (0, 255, 0) 2 in
  match cv_rectangle img pt1 pt2 (0, 255, 0) 2 with
  | inl e => (inl e, add_trace [ev1] w)
  | inr img1 =>
      (cv_putText img1 (label_of d) org FONT_HERSHEY_SIMPLEX (6 # 10)%Q
         (0, 255, 0) 2,
       add_trace [ev1; ev2] w)
  end.
Proof.
  unfold draw_detection, cv2_rectangle, cv2_putText, emit, lift_exn, mbind,
    M_bind, add_trace. cbn [fs stdout trace].
  destruct (cv_rectangle _ _ _ _ _) as [e|img1]; [done|].
  cbn [fs stdout trace]. rewrite <- app_assoc.
  by destruct (cv_putText _ _ _ _ _ _ _).
Qed.

(** Drawing only adds drawing calls to the environment. *)
Lemma draw_loop_frame (ds : list det) img (w : World) :
  ∃ evs, (for_each ds draw_detection img w).2 = add_trace evs w ∧
         Forall is_draw evs.
Proof.
  revert img w. induction ds as [|d ds IH]; intros img w.
  - exists []. by rewrite add_trace_nil.
  - rewrite for_each_cons, draw_detection_eq. cbn zeta.
    destruct (cv_rectangle _ _ _ _ _) as [e|img1].
    { eexists. split; [reflexivity|]. by repeat constructor. }
    destruct (cv_putText _ _ _ _ _ _ _) as [e|img2].
    { eexists. split; [reflexivity|]. by repeat constructor. }
    destruct (IH img2 (add_trace
      [EvRectangle (det_x d, det_y d) (det_x d + det_w d, det_y d + det_h d)
         (0, 255, 0) 2;
       EvPutText (label_of d) (det_x d, Z.max 10 (det_y d - 5))
         FONT_HERSHEY_SIMPLEX (6 # 10)%Q (0, 255, 0) 2] w))
      as (evs & -> & Hevs).
    rewrite add_trace_add_trace. eexists. split; [reflexivity|].
    by repeat constructor.
Qed.

(** [render_detections] catches every exception. *)
Lemma render_detections_returns image_path detections output_path (w : World) :
  ∃ r w', render_detections image_path detections output_path w = (inr r, w').
Proof.
  rewrite render_detections_eq. cbn zeta.
  destruct (imread_result w image_path) as [img|]; [|by eauto].
  destruct (for_each _ _ _ _) as [[e|img'] w1]; [by eauto|].
  destruct (cv_imwrite _ img'); by eauto.
Qed.
End RenderLoop.

(** ** [main] *)

Section Main.
Context `{cv : Cv2}.
Variable order : byteorder.

Lemma print_lines_eq (l : list (Z * det)) (w : World) :
  for_each l (λ '(i, d) _, print (detection_line i d)) () w
  = (inr (), add_stdout ((λ '(i, d), detection_line i d) <$> l) w).
Proof.
  revert w. induction l as [|[i d] l IH]; intros w.
  - destruct w. unfold add_stdout. cbn. by rewrite app_nil_r.
  - rewrite for_each_cons, print_eq, IH.
    unfold add_stdout. cbn [fs stdout trace fmap list_fmap].
    by rewrite <- app_assoc.
Qed.

(** [main], path by path. *)
Lemma main_eq (argv : list string) (w : World) :
  main order argv w =
  if negb (len argv =? 2) then (inr 1, add_stdout usage w)
  else
    let image_path := nth 1 argv "" in
    let w0 := add_trace [EvExists image_path] w in
    match fs w !! image_path with
    | None =>
        (inr 1, add_stdout ["Error: Image not found: " +:+ image_path] w0)
    | Some _ =>
        match read_shared_memory order w0 with
        | (inl e, w1) => (inl e, w1)
        | (inr None, w1) => (inr 1, w1)
        | (inr (Some detections), w1) =>
            match render_detections image_path detections None
                    (add_stdout (listing detections) w1) with
            | (inl e, w2) => (inl e, w2)
            | (inr _, w2) => (inr 0, w2)
            end
        end
    end.
Proof.
  unfold main. destruct (negb (len argv =? 2)).
  { unfold print, mbind, M_bind, mret, M_ret, add_stdout, usage.
    cbn [fs stdout trace]. by rewrite <- !app_assoc. }
  cbn zeta.
  unfold os_path_exists, emit, get_file, mbind, M_bind, mret, M_ret.
  cbn [fs stdout trace]. fold (add_trace [EvExists (nth 1 argv "")] w).
  destruct (fs w !! nth 1 argv "") as [f|].
  - rewrite bool_decide_eq_true_2 by eauto. cbn [negb].
    destruct (read_shared_memory order _) as [[e|[ds|]] w1]; try done.
    rewrite print_eq, print_lines_eq, add_stdout_add_stdout. cbn [app].
    fold (listing ds).
    by destruct (render_detections _ _ _ _) as [[e|r] w2].
  - rewrite bool_decide_eq_false_2 by (by intros [? ?]). done.
Qed.
End Main.

(** ** Paths and [os.path.splitext] *)

Lemma str_app_nil (s : string) : "" +:+ s = s.
Proof. reflexivity. Qed.

Lemma str_app_cons (a : ascii) (s1 s2 : string) :
  String a s1 +:+ s2 = String a (s1 +:+ s2).
Proof. reflexivity. Qed.

Lemma str_app_assoc (s1 s2 s3 : string) :
  (s1 +:+ s2) +:+ s3 = s1 +:+ (s2 +:+ s3).
Proof.
  induction s1 as [|a s1 IH]; [done|]. by rewrite !str_app_cons, IH.
Qed.

Lemma str_length_app (s1 s2 : string) :
  String.length (s1 +:+ s2) = (String.length s1 + String.length s2)%nat.
Proof.
  induction s1 as [|a s1 IH]; [done|].
  rewrite str_app_cons. cbn [String.length]. by rewrite IH.
Qed.

Lemma str_take_app (s1 s2 : string) :
  str_take (String.length s1) (s1 +:+ s2) = s1.
Proof.
  induction s1 as [|a s1 IH]; [by destruct s2|].
  rewrite str_app_cons. cbn [String.length str_take]. by rewrite IH.
Qed.

Lemma str_drop_app (s1 s2 : string) :
  str_drop (String.length s1) (s1 +:+ s2) = s2.
Proof.
  induction s1 as [|a s1 IH]; [by destruct s2|].
  rewrite str_app_cons. cbn [String.length str_drop]. by rewrite IH.
Qed.

Lemma rfind_from_app (s1 s2 : string) c i found :
  rfind_from (s1 +:+ s2) c i found =
  rfind_from s2 c (i + Z.of_nat (String.length s1)) (rfind_from s1 c i found).
Proof.
  revert i found. induction s1 as [|a s1 IH]; intros i found.
  - rewrite str_app_nil. cbn [String.length rfind_from]. by rewrite Z.add_0_r.
  - rewrite str_app_cons. cbn [rfind_from String.length]. rewrite IH.
    f_equal. lia.
Qed.

Lemma rfind_from_absent (s : string) c i found :
  occurs c s = false → rfind_from s c i found = found.
Proof.
  revert i found. induction s as [|a s IH]; intros i found; [done|].
  cbn [occurs rfind_from]. intros [Ha Hs]%orb_false_elim.
  by rewrite Ha, IH.
Qed.

Lemma rfind_from_bounds (s : string) c i found :
  found < i →
  found <= rfind_from s c i found < i + Z.of_nat (String.length s).
Proof.
  revert i found. induction s as [|a s IH]; intros i found Hlt.
  - simpl. lia.
  - cbn [rfind_from String.length].
    destruct (Ascii.eqb a c).
    + pose proof (IH (i + 1) i). lia.
    + pose proof (IH (i + 1) found). lia.
Qed.

(** The loop finds a character of the file name that is not a dot. *)
Lemma splitext_scan_found (p : string) (dotIndex : Z) (n : nat) (fi j : Z) :
  0 <= fi →
  fi <= j < fi + Z.of_nat n →
  str_take 1 (str_drop (Z.to_nat j) p) ≠ "." →
  splitext_scan p dotIndex n fi =
  Some (str_take (Z.to_nat dotIndex) p, str_drop (Z.to_nat dotIndex) p).
Proof.
  revert fi. induction n as [|n IH]; intros fi Hfi Hj Hne; [lia|].
  cbn [splitext_scan].
  destruct (String.eqb_spec (str_take 1 (str_drop (Z.to_nat fi) p)) ".") as [E|E];
    [|done].
  cbn [negb]. apply IH; [lia| |done].
  assert (j ≠ fi) by (intros ->; by apply Hne). lia.
Qed.

(** A path [base.ext] splits before its last dot. *)
Lemma splitext_stem_ext (base ext : string) :
  has_stem base → is_extension ext →
  splitext (base +:+ "." +:+ ext) = (base, "." +:+ ext).
Proof.
  intros (dir & c & tail & Hb & Hdot & Hsep & Htail) [Hext1 Hext2].
  assert (Hdoti : rfind (base +:+ "." +:+ ext) "." = Z.of_nat (String.length base)).
  { unfold rfind. rewrite rfind_from_app, str_app_cons, str_app_nil.
    cbn [rfind_from]. rewrite Ascii.eqb_refl. by rewrite rfind_from_absent. }
  assert (Hsepi : rfind (base +:+ "." +:+ ext) "/" = rfind dir "/").
  { unfold rfind. rewrite rfind_from_app, str_app_cons, str_app_nil.
    cbn [rfind_from].
    change (Ascii.eqb "." "/") with false. rewrite rfind_from_absent by done.
    rewrite Hb, rfind_from_app. apply rfind_from_absent.
    cbn [occurs]. rewrite Htail.
    destruct (Ascii.eqb_spec c "/"); [done|reflexivity]. }
  pose proof (rfind_from_bounds dir "/" 0 (-1) ltac:(lia)) as Hr.
  fold (rfind dir "/") in Hr.
  assert (Hlen : String.length base
                 = (String.length dir + S (String.length tail))%nat)
    by (rewrite Hb, str_length_app; reflexivity).
  unfold splitext. rewrite Hdoti, Hsepi.
  destruct (Z.ltb_spec (rfind dir "/") (Z.of_nat (String.length base))); [|lia].
  rewrite splitext_scan_found with (j := Z.of_nat (String.length dir)).
  - rewrite Nat2Z.id. by rewrite str_take_app, str_drop_app.
  - lia.
  - lia.
  - rewrite Nat2Z.id, Hb, str_app_assoc, str_drop_app, str_app_cons.
    cbn [str_take]. intros [= ->]. done.
Qed.

Section RenderOutput.
Context `{cv : Cv2}.

(** Whatever happens, [render_detections] writes no file but the output
    path, calls [cv2.imwrite] on no other path, and returns no other
    path. *)
Lemma render_detections_output image_path detections output_path (w : World) :
  let out := resolve_output image_path output_path in
  let r := render_detections image_path detections output_path w in
  (∃ evs, trace r.2 = trace w ++ evs ∧ ∀ q, EvImwrite q ∈ evs → q = out) ∧
  (∀ q, q ≠ out → fs r.2 !! q = fs w !! q) ∧
  (∀ q, r.1 = inr (Some q) → q = out).
Proof.
  cbn zeta. rewrite render_detections_eq. cbn zeta.
  set (out := resolve_output image_path output_path).
  destruct (imread_result w image_path) as [img|].
  2:{ cbn. split; [|done]. eexists. split; [reflexivity|].
      by intros q [=]%list_elem_of_singleton. }
  match goal with |- context [for_each ?l ?b ?i ?w0] =>
    destruct (draw_loop_frame l i w0) as (evs & Hw1 & Hevs);
    destruct (for_each l b i w0) as [[e|img'] w1] end;
    cbn [snd] in Hw1; subst w1.
  - cbn. split; [|done]. eexists. split; [by rewrite <- app_assoc|].
    intros q [[=]|Hq]%elem_of_cons.
    by apply (proj1 (Forall_forall _ _) Hevs) in Hq.
  - assert (Hdraws : ∀ q, EvImwrite q ∈ EvImread image_path :: evs ++ [EvImwrite out]
                          → q = out).
    { intros q [[=]|[Hq|Hq]%elem_of_app]%elem_of_cons.
      - by apply (proj1 (Forall_forall _ _) Hevs) in Hq.
      - apply list_elem_of_singleton in Hq. by injection Hq. }
    destruct (cv_imwrite out img') as [encoded| |e]; cbn.
    + split; [|split].
      * eexists. split; [by rewrite <- !app_assoc|done].
      * intros q Hq. by rewrite lookup_insert_ne.
      * by intros q [= <-].
    + split; [|split; [done|by intros q [= <-]]].
      eexists. split; [by rewrite <- !app_assoc|done].
    + split; [|done].
      eexists. split; [by rewrite <- !app_assoc|done].
Qed.
End RenderOutput.

(** C8: with no detection, nothing is drawn: the only calls to OpenCV are
    [imread] of the input and [imwrite] of the output, and the file written
    is the encoding of the image exactly as it was decoded. *)
Theorem render_detections_no_detections `{cv : Cv2} (image_path : string)
    (output_path : option string) (w : World) (f : file) (img : Mat) :
  fs w !! image_path = Some f →
  readable f = true →
  cv_imdecode (data f) = Some img →
  let out := resolve_output image_path output_path in
  let r := render_detections image_path [] output_path w in
  trace r.2 = trace w ++ [EvImread image_path; EvImwrite out] ∧
  ∀ encoded, cv_imwrite out img = WriteOk encoded →
             r.1 = inr (Some out) ∧
             fs r.2 = <[out := File true encoded]> (fs w).
Proof.
  intros Hf Hr Hdec. cbn zeta. rewrite render_detections_eq. cbn zeta.
  unfold imread_result. rewrite Hf, Hr, Hdec. cbn [for_each mret M_ret].
  destruct (cv_imwrite _ img) as [encoded| |e]; cbn.
  - split; [by rewrite <- app_assoc|]. by intros ? [= <-].
  - split; [by rewrite <- app_assoc|]. by intros ? [=].
  - split; [by rewrite <- app_assoc|]. by intros ? [=].
Qed.

(** ** The process *)

(** C3: when the shared-memory object is absent at
    [/dev/shm/ipc_yolov4_shm], [read_shared_memory] reports the error and
    returns [None] after the existence check alone, and the process exits
    with status 1 whatever its arguments. *)
Theorem shared_memory_absent `{cv : Cv2} (order : byteorder) (w : World) :
  fs w !! "/dev/shm/ipc_yolov4_shm" = None →
  read_shared_memory order w =
  (inr None,
   add_stdout ["Error: Shared memory not found at /dev/shm/ipc_yolov4_shm"]
     (add_trace [EvExists "/dev/shm/ipc_yolov4_shm"] w)) ∧
  ∀ argv, (exit_status order argv w).1 = 1.
Proof.
  intros Hf.
  assert (Hread : ∀ w0, fs w0 !! "/dev/shm/ipc_yolov4_shm" = None →
    read_shared_memory order w0 =
    (inr None,
     add_stdout ["Error: Shared memory not found at /dev/shm/ipc_yolov4_shm"]
       (add_trace [EvExists "/dev/shm/ipc_yolov4_shm"] w0))).
  { intros w0 Hw0.
    unfold read_shared_memory, try_except, os_path_exists, emit, get_file,
      print, mbind, M_bind, mret, M_ret.
    cbn [fs stdout trace]. change shm_path with "/dev/shm/ipc_yolov4_shm".
    rewrite Hw0, bool_decide_eq_false_2 by (by intros [? ?]).
    reflexivity. }
  split; [by apply Hread|].
  intros argv. unfold exit_status. rewrite main_eq.
  destruct (negb (len argv =? 2)); [done|]. cbn zeta.
  destruct (fs w !! nth 1 argv "") as [f|]; [|done].
  by rewrite Hread.
Qed.

(** C5: with an argument count other than one ([sys.argv] of a length
    other than two), the process prints the usage message and exits with
    status 1; it makes no call to the operating system or to OpenCV, and no
    file changes. *)
Theorem main_usage `{cv : Cv2} (order : byteorder) (argv : list string)
    (w : World) :
  length argv ≠ 2%nat →
  exit_status order argv w = (1, add_stdout usage w) ∧
  trace (exit_status order argv w).2 = trace w ∧
  fs (exit_status order argv w).2 = fs w.
Proof.
  intros Hn. unfold exit_status. rewrite main_eq.
  destruct (Z.eqb_spec (len argv) 2) as [E|_]; [unfold len in E; lia|].
  done.
Qed.

(** C6: when the image path does not exist, the process exits with status 1
    after the existence check of the image alone: the shared memory is
    neither looked for, opened nor mapped. *)
Theorem main_image_not_found `{cv : Cv2} (order : byteorder)
    (prog image_path : string) (w : World) :
  fs w !! image_path = None →
  exit_status order [prog; image_path] w =
  (1, add_stdout ["Error: Image not found: " +:+ image_path]
        (add_trace [EvExists image_path] w)).
Proof.
  intros Hf. unfold exit_status. rewrite main_eq.
  cbn [len length Z.of_nat Z.eqb negb nth]. cbn zeta. by rewrite Hf.
Qed.

(** Once the detections are read, the exit status is 0 whatever
    [render_detections] returns: [main] drops its result. *)
Lemma main_exit_status_after_read `{cv : Cv2} (order : byteorder)
    (prog image_path : string) (w w1 : World) (f : file) (detections : list det) :
  fs w !! image_path = Some f →
  read_shared_memory order (add_trace [EvExists image_path] w)
  = (inr (Some detections), w1) →
  (exit_status order [prog; image_path] w).1 = 0.
Proof.
  intros Hf Hread. unfold exit_status. rewrite main_eq.
  cbn [len length Z.of_nat Z.eqb negb nth]. cbn zeta. rewrite Hf, Hread.
  destruct (render_detections_returns image_path detections None
              (add_stdout (listing detections) w1)) as (r & w2 & ->).
  reflexivity.
Qed.

(** C4, on the code: the image cannot be decoded; the failure is reported
    and no file is written, but the process exits with status 0. *)
Theorem main_exit_0_on_decode_failure :
  exit_status (cv := canvas) LittleEndian ["objectReaderSHM.py"; "sample.ppm"]
    undecodable_world
  = (0,
     mkWorld (fs undecodable_world)
       ["Read 0 detection(s) from shared memory:";
        "Failed to load image: sample.ppm"]
       [EvExists "sample.ppm"; EvExists "/dev/shm/ipc_yolov4_shm";
        EvOpen "/dev/shm/ipc_yolov4_shm";
        EvMmap "/dev/shm/ipc_yolov4_shm" 244; EvMmapClose;
        EvClose "/dev/shm/ipc_yolov4_shm"; EvImread "sample.ppm"]).
Proof. vm_compute. reflexivity. Qed.

(** [cv2.imwrite] returning [False] is not noticed: the function prints
    that it saved the image and returns the path, and no file is written. *)
Lemma render_detections_imwrite_false `{cv : Cv2} (image_path : string)
    (output_path : option string) (w : World) (f : file) (img : Mat) :
  fs w !! image_path = Some f →
  readable f = true →
  cv_imdecode (data f) = Some img →
  let out := resolve_output image_path output_path in
  cv_imwrite out img = WriteFalse →
  render_detections image_path [] output_path w =
  (inr (Some out),
   add_stdout ["Rendering 0 detection(s)..."; "Saved to " +:+ out]
     (add_trace [EvImread image_path; EvImwrite out] w)).
Proof.
  intros Hf Hr Hdec out Hwr. rewrite render_detections_eq. cbn zeta.
  unfold imread_result. rewrite Hf, Hr, Hdec. cbn [for_each mret M_ret].
  fold out. rewrite Hwr. unfold add_stdout, add_trace. cbn.
  by rewrite <- !app_assoc.
Qed.

(** ** The statements on sample environments *)

Lemma read_shared_memory_returns_first_N_witness :
  read_shared_memory LittleEndian
    (sample_world ppm_image (segment LittleEndian 2 sample_entries [x2a]))
  = (inr (Some (take (Z.to_nat 2) sample_entries)),
     add_trace (shm_events ++ [EvMmapClose; EvClose shm_path])
       (sample_world ppm_image (segment LittleEndian 2 sample_entries [x2a]))) ∧
  len (take (Z.to_nat 2) sample_entries) = 2.
Proof.
  apply (read_shared_memory_returns_first_N LittleEndian
           (sample_world ppm_image (segment LittleEndian 2 sample_entries [x2a]))
           (File true (segment LittleEndian 2 sample_entries [x2a]))
           2 sample_entries [x2a]).
  - lia.
  - reflexivity.
  - repeat constructor; unfold valid_c_int, INT_MIN, INT_MAX; simpl; lia.
  - reflexivity.
  - reflexivity.
  - reflexivity.
Defined.

Lemma read_shared_memory_count_beyond_capacity_witness :
  read_shared_memory LittleEndian
    (sample_world ppm_image (segment LittleEndian 11 sample_entries []))
  = (inr None,
     add_stdout ["Error reading shared memory: invalid index"]
       (add_trace shm_events
          (sample_world ppm_image (segment LittleEndian 11 sample_entries [])))).
Proof.
  apply (read_shared_memory_count_beyond_capacity LittleEndian
           (sample_world ppm_image (segment LittleEndian 11 sample_entries []))
           (File true (segment LittleEndian 11 sample_entries []))).
  - reflexivity.
  - reflexivity.
  - apply Nat.leb_le. reflexivity.
  - reflexivity.
Defined.

Lemma read_shared_memory_negative_count_witness :
  read_shared_memory LittleEndian
    (sample_world ppm_image (segment LittleEndian (-1) sample_entries []))
  = (inr (Some []),
     add_trace (shm_events ++ [EvMmapClose; EvClose shm_path])
       (sample_world ppm_image (segment LittleEndian (-1) sample_entries []))).
Proof.
  apply (read_shared_memory_negative_count LittleEndian
           (sample_world ppm_image (segment LittleEndian (-1) sample_entries []))
           (File true (segment LittleEndian (-1) sample_entries []))).
  - reflexivity.
  - reflexivity.
  - apply Nat.leb_le. reflexivity.
  - reflexivity.
Defined.

Lemma shared_memory_absent_witness :
  read_shared_memory LittleEndian no_shm_world =
  (inr None,
   add_stdout ["Error: Shared memory not found at /dev/shm/ipc_yolov4_shm"]
     (add_trace [EvExists "/dev/shm/ipc_yolov4_shm"] no_shm_world)) ∧
  ∀ argv, (exit_status (cv := canvas) LittleEndian argv no_shm_world).1 = 1.
Proof.
  apply (shared_memory_absent (cv := canvas) LittleEndian no_shm_world).
  reflexivity.
Defined.

Lemma main_usage_witness :
  exit_status (cv := canvas) LittleEndian ["objectReaderSHM.py"] no_shm_world
  = (1, add_stdout usage no_shm_world) ∧
  trace (exit_status (cv := canvas) LittleEndian ["objectReaderSHM.py"]
           no_shm_world).2 = trace no_shm_world ∧
  fs (exit_status (cv := canvas) LittleEndian ["objectReaderSHM.py"]
        no_shm_world).2 = fs no_shm_world.
Proof.
  apply (main_usage (cv := canvas) LittleEndian ["objectReaderSHM.py"]
           no_shm_world).
  simpl. lia.
Defined.

Lemma main_image_not_found_witness :
  exit_status (cv := canvas) LittleEndian ["objectReaderSHM.py"; "missing.ppm"]
    (sample_world ppm_image (segment LittleEndian 2 sample_entries []))
  = (1, add_stdout ["Error: Image not found: " +:+ "missing.ppm"]
          (add_trace [EvExists "missing.ppm"]
             (sample_world ppm_image (segment LittleEndian 2 sample_entries [])))).
Proof.
  apply (main_image_not_found (cv := canvas) LittleEndian "objectReaderSHM.py"
           "missing.ppm"
           (sample_world ppm_image (segment LittleEndian 2 sample_entries []))).
  reflexivity.
Defined.

Lemma render_detections_no_detections_witness :
  let w := sample_world ppm_image [] in
  let r := render_detections (cv := canvas) "sample.ppm" [] None w in
  trace r.2 = trace w ++ [EvImread "sample.ppm";
                          EvImwrite (resolve_output "sample.ppm" None)] ∧
  ∀ encoded,
    cv_imwrite (resolve_output "sample.ppm" None) (ppm_image, []) = WriteOk encoded →
    r.1 = inr (Some (resolve_output "sample.ppm" None)) ∧
    fs r.2 = <[resolve_output "sample.ppm" None := File true encoded]> (fs w).
Proof.
  apply (render_detections_no_detections (cv := canvas) "sample.ppm" None
           (sample_world ppm_image []) (File true ppm_image) (ppm_image, [])).
  - reflexivity.
  - reflexivity.
  - reflexivity.
Defined.

(** * Further properties *)

(** ** What a structure can hold *)

Lemma le_to_Z_range (bs : list byte) :
  0 <= le_to_Z bs < 256 ^ Z.of_nat (length bs).
Proof.
  induction bs as [|b bs IH].
  - simpl. lia.
  - cbn [le_to_Z length]. rewrite Nat2Z.inj_succ, Z.pow_succ_r by lia.
    pose proof (byte_to_Z_range b). lia.
Qed.

Lemma unsigned_of_bytes_range order (bs : list byte) :
  (length bs ≤ 4)%nat → 0 <= unsigned_of_bytes order bs < 2 ^ 32.
Proof.
  intros Hlen.
  assert (H : ∀ l : list byte, (length l ≤ 4)%nat → 0 <= le_to_Z l < 2 ^ 32).
  { intros l Hl. pose proof (le_to_Z_range l) as Hr.
    assert (256 ^ Z.of_nat (length l) <= 256 ^ 4)
      by (apply Z.pow_le_mono_r; lia).
    change (256 ^ 4) with (2 ^ 32) in *. lia. }
  destruct order; simpl; apply H; [done|]. by rewrite length_rev.
Qed.

Lemma slice_length (off len : nat) (buf : list byte) :
  (length (slice off len buf) ≤ len)%nat.
Proof. unfold slice. rewrite length_take. lia. Qed.

Lemma c_int_get_valid order (bs : list byte) :
  (length bs ≤ 4)%nat → valid_c_int (c_int_get order bs).
Proof.
  intros Hlen. pose proof (unsigned_of_bytes_range order bs Hlen) as Hr.
  unfold valid_c_int, INT_MIN, INT_MAX, c_int_get, to_signed32.
  change (2 ^ 32) with 4294967296 in *. change (2 ^ 31) with 2147483648 in *.
  destruct (Z.ltb_spec (unsigned_of_bytes order bs) 2147483648); lia.
Qed.

Lemma digits2_pos_le (m : positive) (k : Z) :
  0 <= k → Zpos m < 2 ^ k → Zpos (digits2_pos m) <= k.
Proof.
  intros Hk Hm. pose proof (digits2_pos_bounds m) as [Hlo _].
  destruct (Z.le_gt_cases (Zpos (digits2_pos m)) k) as [|Hgt]; [done|].
  assert (2 ^ k <= 2 ^ (Zpos (digits2_pos m) - 1))
    by (apply Z.pow_le_mono_r; lia).
  lia.
Qed.

Lemma digits2_pos_ge (m : positive) (k : Z) :
  2 ^ k <= Zpos m → k < Zpos (digits2_pos m).
Proof.
  intros Hm. pose proof (digits2_pos_bounds m) as [_ Hhi].
  destruct (Z.lt_ge_cases k (Zpos (digits2_pos m))) as [|Hge]; [done|].
  assert (2 ^ Zpos (digits2_pos m) <= 2 ^ k) by (apply Z.pow_le_mono_r; lia).
  lia.
Qed.

(** Every bit pattern decodes to a binary32 value. *)
Lemma b32_of_bits_valid (u : Z) : valid_binary32 (b32_of_bits u).
Proof.
  unfold b32_of_bits.
  change (2 ^ 23) with 8388608. change (2 ^ 8) with 256.
  assert (HE : 0 <= (u / 8388608) mod 256 < 256) by (apply Z.mod_pos_bound; lia).
  assert (Hf : 0 <= u mod 8388608 < 8388608) by (apply Z.mod_pos_bound; lia).
  set (E := (u / 8388608) mod 256) in *. set (frac := u mod 8388608) in *.
  destruct (Z.eqb_spec E 0) as [HE0|HE0].
  - destruct frac as [|m|m] eqn:Hm; try reflexivity.
    unfold valid_binary32, valid_binary, bounded, canonical_mantissa, fexp, emin.
    assert (Zpos (digits2_pos m) <= 23)
      by (apply digits2_pos_le; [lia|change (2 ^ 23) with 8388608; lia]).
    apply andb_true_intro. split; [apply Z.eqb_eq|apply Z.leb_le]; lia.
  - destruct (Z.eqb_spec E 255) as [HE1|HE1].
    { by destruct (frac =? 0). }
    destruct (frac + 8388608) as [|m|m] eqn:Hm; try reflexivity.
    unfold valid_binary32, valid_binary, bounded, canonical_mantissa, fexp, emin.
    assert (Zpos (digits2_pos m) <= 24)
      by (apply digits2_pos_le; [lia|change (2 ^ 24) with 16777216; lia]).
    assert (23 < Zpos (digits2_pos m))
      by (apply digits2_pos_ge; change (2 ^ 23) with 8388608; lia).
    apply andb_true_intro. split; [apply Z.eqb_eq|apply Z.leb_le]; lia.
Qed.

(** Whatever the bytes, the dictionary read from a structure has its
    integers in the range of a C [int] and a binary32 confidence. *)
Lemma det_of_struct_valid order (buf : list byte) :
  valid_det (det_of_struct order buf).
Proof.
  unfold valid_det, det_of_struct. cbn [det_class_id det_confidence det_x det_y
    det_w det_h].
  unfold Detection.class_id, Detection.confidence, Detection.x, Detection.y,
    Detection.w, Detection.h, c_float_get.
  repeat split; try (apply c_int_get_valid, slice_length).
  apply b32_of_bits_valid.
Qed.

(** ** The loop of the reader, in closed form *)

Lemma read_loop_closed order (shared : list byte) (w : World) :
  for_each (range (SharedData.count order shared))
    (append_detection order shared) [] w
  = (read_entries order shared, w).
Proof.
  unfold read_entries.
  destruct (Z.leb_spec (SharedData.count order shared) MAX_BOXES) as [Hc|Hc].
  - rewrite (read_loop_ok order shared _ (entry order shared <$>
              range (SharedData.count order shared))); [done|].
    apply Forall2_fmap_r, Forall_Forall2_diag, Forall_forall.
    intros i Hi. unfold range in Hi.
    apply list_elem_of_fmap in Hi as (k & -> & Hk). apply elem_of_seq in Hk.
    eexists. split; [|reflexivity]. unfold SharedData.det, MAX_BOXES in *.
    destruct (Z.ltb_spec (Z.of_nat k) 0); [lia|].
    destruct (Z.leb_spec 0 (Z.of_nat k)); [|lia].
    destruct (Z.ltb_spec (Z.of_nat k) 10); [|lia]. reflexivity.
  - by apply read_loop_beyond.
Qed.

Lemma read_entries_length order (shared : list byte) (ds : list det) :
  read_entries order shared = inr ds →
  len ds = Z.max 0 (SharedData.count order shared) ∧
  SharedData.count order shared <= MAX_BOXES.
Proof.
  unfold read_entries.
  destruct (Z.leb_spec (SharedData.count order shared) MAX_BOXES); [|done].
  intros [= <-]. unfold len. rewrite length_fmap, range_length. lia.
Qed.

(** ** The reader on every environment *)

(** [read_shared_memory], case by case. *)
Lemma read_shared_memory_cases order (w : World) :
  read_shared_memory order w =
  match fs w !! shm_path with
  | None =>
      (inr None,
       add_stdout ["Error: Shared memory not found at " +:+ shm_path]
         (add_trace [EvExists shm_path] w))
  | Some f =>
      if negb (readable f) then
        (inr None,
         add_stdout ["Error reading shared memory: [Errno 13] Permission denied: '"
                     +:+ shm_path +:+ "'"]
           (add_trace [EvExists shm_path; EvOpen shm_path] w))
      else if (length (data f) <? SharedData.sizeof)%nat then
        (inr None,
         add_stdout ["Error reading shared memory: mmap length is greater than file size"]
           (add_trace shm_events w))
      else
        match read_entries order (take SharedData.sizeof (data f)) with
        | inl e =>
            (inr None,
             add_stdout ["Error reading shared memory: " +:+ str_exn e]
               (add_trace shm_events w))
        | inr ds =>
            (inr (Some ds),
             add_trace (shm_events ++ [EvMmapClose; EvClose shm_path]) w)
        end
  end.
Proof.
  destruct (fs w !! shm_path) as [f|] eqn:Hf.
  2:{ unfold read_shared_memory, try_except, os_path_exists, emit, get_file,
        print, mbind, M_bind, mret, M_ret.
      cbn [fs stdout trace].
      by rewrite Hf, bool_decide_eq_false_2 by (by intros [? ?]). }
  destruct (readable f) eqn:Hr; cbn [negb].
  2:{ unfold read_shared_memory, try_except, os_path_exists, os_open, emit,
        get_file, print, raise, mbind, M_bind, mret, M_ret.
      cbn [fs stdout trace].
      rewrite Hf, bool_decide_eq_true_2 by eauto. cbn [negb fs stdout trace].
      rewrite Hf, Hr. unfold add_stdout, add_trace. cbn [fs stdout trace str_exn].
      by rewrite <- app_assoc. }
  destruct (Nat.ltb_spec (length (data f)) SharedData.sizeof) as [Hlen|Hlen].
  - unfold read_shared_memory, try_except, os_path_exists, os_open, mmap_mmap,
      emit, get_file, print, raise, mbind, M_bind, mret, M_ret.
    cbn [fs stdout trace].
    rewrite Hf, bool_decide_eq_true_2 by eauto. cbn [negb fs stdout trace].
    rewrite Hf, Hr. cbn [fs stdout trace]. rewrite Hf.
    change (SharedData.sizeof =? 0)%nat with false. cbn match.
    destruct (Nat.ltb_spec (length (data f)) SharedData.sizeof) as [_|]; [|lia].
    unfold add_stdout, add_trace, shm_events. cbn [fs stdout trace str_exn].
    by rewrite <- !app_assoc.
  - rewrite (read_shared_memory_mapped order w f Hf Hr Hlen). cbn zeta.
    rewrite read_loop_closed.
    destruct (read_entries _ _) as [e|ds]; [done|].
    by rewrite add_trace_add_trace.
Qed.

(** X1: a segment shorter than the structure cannot be mapped: the error of
    [mmap] is reported, [None] is returned, and the descriptor that was
    opened is not closed. *)
Theorem read_shared_memory_short_segment (order : byteorder) (w : World)
    (f : file) :
  fs w !! shm_path = Some f →
  readable f = true →
  (length (data f) < SharedData.sizeof)%nat →
  read_shared_memory order w =
  (inr None,
   add_stdout ["Error reading shared memory: mmap length is greater than file size"]
     (add_trace [EvExists shm_path; EvOpen shm_path;
                 EvMmap shm_path SharedData.sizeof] w)).
Proof.
  intros Hf Hr Hlen. rewrite read_shared_memory_cases, Hf, Hr. cbn [negb].
  by destruct (Nat.ltb_spec (length (data f)) SharedData.sizeof); [|lia].
Qed.

(** X2: a segment this process may not read: [os.open] fails, the error is
    reported and [None] is returned; nothing is mapped. *)
Theorem read_shared_memory_permission_denied (order : byteorder) (w : World)
    (f : file) :
  fs w !! shm_path = Some f →
  readable f = false →
  read_shared_memory order w =
  (inr None,
   add_stdout ["Error reading shared memory: [Errno 13] Permission denied: '/dev/shm/ipc_yolov4_shm'"]
     (add_trace [EvExists shm_path; EvOpen shm_path] w)).
Proof.
  intros Hf Hr. by rewrite read_shared_memory_cases, Hf, Hr.
Qed.

(** X3: [read_shared_memory] never raises and never changes a file; it
    prints one line exactly when it returns [None], and nothing when it
    returns a list. *)
Theorem read_shared_memory_returns_and_reports (order : byteorder) (w : World) :
  ∃ r lines evs,
    read_shared_memory order w =
    (inr r, mkWorld (fs w) (stdout w ++ lines) (trace w ++ evs)) ∧
    length lines = (if r is None then 1 else 0)%nat.
Proof.
  rewrite read_shared_memory_cases.
  assert (Hnil : ∀ r evs, ∃ r' lines evs',
     (inr (Some r) : exn + option (list det), add_trace evs w)
     = (inr r', mkWorld (fs w) (stdout w ++ lines) (trace w ++ evs')) ∧
     length lines = (if r' is None then 1 else 0)%nat).
  { intros r evs. exists (Some r), [], evs. split; [|done].
    unfold add_trace. by rewrite app_nil_r. }
  assert (Hone : ∀ line evs, ∃ r' lines evs',
     (inr None : exn + option (list det), add_stdout [line] (add_trace evs w))
     = (inr r', mkWorld (fs w) (stdout w ++ lines) (trace w ++ evs')) ∧
     length lines = (if r' is None then 1 else 0)%nat).
  { intros line evs. by exists None, [line], evs. }
  destruct (fs w !! shm_path) as [f|]; [|by apply Hone].
  destruct (negb (readable f)); [by apply Hone|].
  destruct (length (data f) <? SharedData.sizeof)%nat; [by apply Hone|].
  destruct (read_entries _ _); [by apply Hone|by apply Hnil].
Qed.

(** X4: the list returned never has more than [MAX_BOXES] records: its
    length is the count field, or 0 for a negative count; and each record
    holds C integers and a binary32 confidence. *)
Theorem read_shared_memory_result_bounds (order : byteorder) (w w' : World)
    (f : file) (ds : list det) :
  fs w !! shm_path = Some f →
  read_shared_memory order w = (inr (Some ds), w') →
  len ds = Z.max 0 (SharedData.count order (take SharedData.sizeof (data f))) ∧
  len ds <= MAX_BOXES ∧
  Forall valid_det ds.
Proof.
  intros Hf. rewrite read_shared_memory_cases, Hf.
  destruct (negb (readable f)); [done|].
  destruct (length (data f) <? SharedData.sizeof)%nat; [done|].
  destruct (read_entries _ _) as [e|ds'] eqn:Hread; [done|].
  intros [= <- _]. destruct (read_entries_length _ _ _ Hread) as [Hlen Hc].
  split; [done|]. split; [unfold MAX_BOXES in *; lia|].
  unfold read_entries in Hread.
  destruct (_ <=? _); [|done]. injection Hread as <-.
  apply Forall_fmap, Forall_forall. intros i _. apply det_of_struct_valid.
Qed.

(** X5: the calls [shm.close()] and [os.close(fd)] of lines 65-66 are made
    exactly when the read succeeds.  A successful read makes the five calls
    exists, open, mmap, [shm.close], [os.close] in that order.  A read that
    returns [None] makes neither of the two closing calls; when the segment
    could be opened, its calls are exists, open and mmap and nothing else,
    so the descriptor [os.open] returned is never passed to [os.close]. *)
Theorem read_shared_memory_closes_on_success_only (order : byteorder)
    (w : World) :
  let res := read_shared_memory order w in
  ∃ evs, trace res.2 = trace w ++ evs ∧
    match res.1 with
    | inr (Some _) =>
        evs = [EvExists shm_path; EvOpen shm_path;
               EvMmap shm_path SharedData.sizeof; EvMmapClose; EvClose shm_path]
    | _ =>
        (EvMmapClose ∉ evs) ∧ (EvClose shm_path ∉ evs) ∧
        (∀ f, fs w !! shm_path = Some f → readable f = true →
              evs = [EvExists shm_path; EvOpen shm_path;
                     EvMmap shm_path SharedData.sizeof])
    end.
Proof.
  cbn zeta. rewrite read_shared_memory_cases.
  assert (Hno : ∀ evs, evs `prefix_of` shm_events →
            (EvMmapClose ∉ evs) ∧ (EvClose shm_path ∉ evs)).
  { intros evs Hpre.
    assert (Hin : ∀ ev, ev ∈ evs → ev ∈ shm_events)
      by (intros ev Hev; destruct Hpre as [k ->]; apply elem_of_app; by left).
    split; intros H%Hin; unfold shm_events in H;
      repeat (apply elem_of_cons in H as [H|H]; [discriminate|]);
      by apply elem_of_nil in H. }
  destruct (fs w !! shm_path) as [f|] eqn:Hf.
  2:{ eexists. split; [reflexivity|].
      destruct (Hno [EvExists shm_path]) as [H1 H2].
      { by exists [EvOpen shm_path; EvMmap shm_path SharedData.sizeof]. }
      split; [done|]. split; [done|]. by intros f' [=]. }
  destruct (readable f) eqn:Hr; cbn [negb].
  2:{ eexists. split; [reflexivity|].
      destruct (Hno [EvExists shm_path; EvOpen shm_path]) as [H1 H2].
      { by exists [EvMmap shm_path SharedData.sizeof]. }
      split; [done|]. split; [done|]. intros f' [= <-]. congruence. }
  destruct (length (data f) <? SharedData.sizeof)%nat.
  { eexists. split; [reflexivity|]. destruct (Hno shm_events) as [H1 H2]; done. }
  destruct (read_entries _ _).
  - eexists. split; [reflexivity|]. destruct (Hno shm_events) as [H1 H2]; done.
  - eexists. split; reflexivity.
Qed.

(** X6: the read succeeds exactly when the segment exists, may be read, is
    long enough to be mapped, and its count field does not exceed the
    capacity. *)
Theorem read_shared_memory_succeeds_iff (order : byteorder) (w : World) :
  (∃ ds, (read_shared_memory order w).1 = inr (Some ds)) ↔
  ∃ f, fs w !! shm_path = Some f ∧ readable f = true ∧
       (SharedData.sizeof ≤ length (data f))%nat ∧
       SharedData.count order (take SharedData.sizeof (data f)) <= MAX_BOXES.
Proof.
  rewrite read_shared_memory_cases.
  destruct (fs w !! shm_path) as [f|].
  2:{ split; [by intros [? [=]]|by intros (? & [=] & _)]. }
  destruct (readable f) eqn:Hr; cbn [negb].
  2:{ split; [by intros [? [=]]|]. intros (? & [= <-] & ? & _). congruence. }
  destruct (Nat.ltb_spec (length (data f)) SharedData.sizeof) as [Hlen|Hlen].
  { split; [by intros [? [=]]|]. intros (? & [= <-] & _ & ? & _). lia. }
  unfold read_entries.
  destruct (Z.leb_spec (SharedData.count order (take SharedData.sizeof (data f)))
              MAX_BOXES) as [Hc|Hc].
  - split; [|by eauto]. intros _. by exists f.
  - split; [by intros [? [=]]|]. intros (? & [= <-] & _ & _ & ?). lia.
Qed.

Lemma slice_take (off len n : nat) (buf : list byte) :
  (off + len ≤ n)%nat → slice off len (take n buf) = slice off len buf.
Proof.
  intros Hn. unfold slice.
  rewrite take_drop_commute, take_take, Nat.min_l by lia.
  by rewrite <- take_drop_commute.
Qed.

Lemma slice_agree (off len n : nat) (l1 l2 : list byte) :
  take n l1 = take n l2 → (off + len ≤ n)%nat →
  slice off len l1 = slice off len l2.
Proof.
  intros Heq Hn.
  rewrite <- (slice_take off len n l1), <- (slice_take off len n l2) by done.
  by rewrite Heq.
Qed.

(** X7: the bytes beyond the entries the count asks for are never looked at:
    two segments that agree on the count and on the first [count] entries
    give the same result, whatever else they hold. *)
Theorem read_shared_memory_ignores_unused_entries (order : byteorder)
    (w1 w2 : World) (f1 f2 : file) :
  fs w1 !! shm_path = Some f1 →
  fs w2 !! shm_path = Some f2 →
  readable f1 = true →
  readable f2 = true →
  (SharedData.sizeof ≤ length (data f1))%nat →
  (SharedData.sizeof ≤ length (data f2))%nat →
  let used :=
    (4 + Z.to_nat (SharedData.count order (take SharedData.sizeof (data f1)))
         * Detection.sizeof)%nat in
  take used (data f1) = take used (data f2) →
  (read_shared_memory order w1).1 = (read_shared_memory order w2).1.
Proof.
  intros Hf1 Hf2 Hr1 Hr2 Hl1 Hl2 used Heq.
  rewrite !read_shared_memory_cases, Hf1, Hf2, Hr1, Hr2. cbn [negb].
  destruct (Nat.ltb_spec (length (data f1)) SharedData.sizeof); [lia|].
  destruct (Nat.ltb_spec (length (data f2)) SharedData.sizeof); [lia|].
  set (s1 := take SharedData.sizeof (data f1)) in *.
  set (s2 := take SharedData.sizeof (data f2)).
  assert (Hcount : SharedData.count order s2 = SharedData.count order s1).
  { unfold SharedData.count, s1, s2.
    rewrite !slice_take by (change SharedData.sizeof with 244%nat; lia).
    f_equal. symmetry. apply (slice_agree 0 4 used); [done|]. unfold used. lia. }
  assert (Hentries : read_entries order s2 = read_entries order s1).
  { unfold read_entries. rewrite Hcount.
    destruct (Z.leb_spec (SharedData.count order s1) MAX_BOXES) as [Hc|]; [|done].
    f_equal. apply list_fmap_ext. intros k i Hi.
    assert (Hk : (k < Z.to_nat (SharedData.count order s1))%nat).
    { apply lookup_lt_Some in Hi. by rewrite range_length in Hi. }
    rewrite range_lookup in Hi by done. injection Hi as <-.
    unfold entry, s1, s2. rewrite Nat2Z.id. f_equal.
    unfold MAX_BOXES in Hc.
    rewrite !slice_take
      by (change SharedData.sizeof with 244%nat; unfold Detection.sizeof; lia).
    symmetry. apply (slice_agree _ _ used); [done|].
    unfold used, Detection.sizeof. fold s1. lia. }
  rewrite Hentries. by destruct (read_entries order s1).
Qed.

(** ** The renderer on every environment *)

Section RenderClosed.
Context `{cv : Cv2}.

Lemma draw_loop_closed (ds : list det) (img : Mat) (w : World) :
  for_each ds draw_detection img w
  = (draw_all ds img, add_trace (draw_trace ds img) w).
Proof.
  revert img w. induction ds as [|d ds IH]; intros img w.
  - cbn. by rewrite add_trace_nil.
  - rewrite for_each_cons, draw_detection_eq. cbn zeta.
    cbn [draw_all draw_trace]. unfold draw_one.
    destruct (cv_rectangle _ _ _ _ _) as [e|img1]; [done|].
    destruct (cv_putText _ _ _ _ _ _ _) as [e|img2].
    + by rewrite app_nil_r.
    + by rewrite IH, add_trace_add_trace.
Qed.

Lemma draw_trace_success (ds : list det) (img img' : Mat) :
  draw_all ds img = inr img' → draw_trace ds img = ds ≫= draw_events.
Proof.
  revert img. induction ds as [|d ds IH]; intros img; [done|].
  cbn [draw_all draw_trace]. unfold draw_one. rewrite bind_cons.
  destruct (cv_rectangle _ _ _ _ _) as [e|img1]; [done|].
  destruct (cv_putText _ _ _ _ _ _ _) as [e|img2]; [done|].
  intros H. by rewrite (IH _ H).
Qed.

Lemma draw_trace_draws (ds : list det) (img : Mat) :
  Forall is_draw (draw_trace ds img).
Proof.
  revert img. induction ds as [|d ds IH]; intros img; [constructor|].
  cbn [draw_trace].
  destruct (cv_rectangle _ _ _ _ _) as [e|img1]; [by repeat constructor|].
  destruct (cv_putText _ _ _ _ _ _ _) as [e|img2]; [by repeat constructor|].
  apply Forall_app. split; [by repeat constructor|apply IH].
Qed.

(** [render_detections] in closed form. *)
Lemma render_detections_closed image_path detections output_path (w : World) :
  render_detections image_path detections output_path w =
  let out := resolve_output image_path output_path in
  match imread_result w image_path with
  | None =>
      (inr None,
       add_stdout ["Failed to load image: " +:+ image_path]
         (add_trace [EvImread image_path] w))
  | Some img =>
      let rendering :=
        "Rendering " +:+ str_int (len detections) +:+ " detection(s)..." in
      let calls := EvImread image_path :: draw_trace detections img in
      match draw_all detections img with
      | inl e =>
          (inr None,
           add_stdout [rendering; "Error rendering: " +:+ str_exn e]
             (add_trace calls w))
      | inr img' =>
          match cv_imwrite out img' with
          | WriteOk encoded =>
              (inr (Some out),
               mkWorld (<[out := File true encoded]> (fs w))
                 (stdout w ++ [rendering; "Saved to " +:+ out])
                 (trace w ++ calls ++ [EvImwrite out]))
          | WriteFalse =>
              (inr (Some out),
               add_stdout [rendering; "Saved to " +:+ out]
                 (add_trace (calls ++ [EvImwrite out]) w))
          | WriteRaise e =>
              (inr None,
               add_stdout [rendering; "Error rendering: " +:+ str_exn e]
                 (add_trace (calls ++ [EvImwrite out]) w))
          end
      end
  end.
Proof.
  rewrite render_detections_eq. cbn zeta.
  destruct (imread_result w image_path) as [img|]; [|done].
  rewrite draw_loop_closed.
  destruct (draw_all detections img) as [e|img'].
  - unfold add_stdout, add_trace. cbn [fs stdout trace].
    by rewrite <- !app_assoc.
  - destruct (cv_imwrite _ img'); unfold add_stdout, add_trace;
      cbn [fs stdout trace]; by rewrite <- !app_assoc.
Qed.
End RenderClosed.

(** C7: when no output path is supplied and the input is [base.ext], the
    rendered image is written to [base_detected.ext]: when the image
    decodes, OpenCV accepts the drawing calls and [cv2.imwrite] writes, the
    file at that path holds the encoding of the image with the detections
    drawn, [cv2.imwrite] was called on that path after the drawing calls,
    and it is the path returned.  In every case the function behaves as if
    that path had been supplied, it is the only path [cv2.imwrite] is called
    on, the only file that may change, and the only path returned. *)
Theorem render_detections_default_output_path `{cv : Cv2} (base ext : string)
    (detections : list det) (w : World) :
  has_stem base →
  is_extension ext →
  let image_path := base +:+ "." +:+ ext in
  let out := base +:+ "_detected." +:+ ext in
  let r := render_detections image_path detections None w in
  default_output_path image_path = out ∧
  r = render_detections image_path detections (Some out) w ∧
  (∃ evs, trace r.2 = trace w ++ evs ∧ ∀ q, EvImwrite q ∈ evs → q = out) ∧
  (∀ q, q ≠ out → fs r.2 !! q = fs w !! q) ∧
  (∀ q, r.1 = inr (Some q) → q = out) ∧
  (∀ img img' encoded,
     imread_result w image_path = Some img →
     draw_all detections img = inr img' →
     cv_imwrite out img' = WriteOk encoded →
     r.1 = inr (Some out) ∧
     fs r.2 = <[out := File true encoded]> (fs w) ∧
     trace r.2 = trace w ++ EvImread image_path ::
                 (detections ≫= draw_events) ++ [EvImwrite out]).
Proof.
  intros Hbase Hext. cbn zeta.
  assert (Hout : default_output_path (base +:+ "." +:+ ext)
                 = base +:+ "_detected." +:+ ext).
  { unfold default_output_path. by rewrite splitext_stem_ext. }
  split; [done|]. split.
  { unfold render_detections. by rewrite Hout. }
  pose proof (render_detections_output (base +:+ "." +:+ ext) detections None w)
    as H.
  cbn zeta in H. unfold resolve_output in H. rewrite Hout in H.
  destruct H as (H1 & H2 & H3). repeat (split; [done|]).
  intros img img' encoded Him Hdraw Hwr.
  rewrite render_detections_closed, Him. cbn zeta.
  unfold resolve_output. rewrite Hout, Hdraw, Hwr.
  by rewrite (draw_trace_success _ _ _ Hdraw).
Qed.

(** C9: for the detection [{class_id: 3, confidence: 0.87, x: 10, y: 20,
    w: 30, h: 40}] (the confidence as the Python literal or as read from a
    C float), the rectangle is drawn on the decoded image from (10, 20) to
    (40, 60), and the label "ID:3 0.87", which contains "3" and "0.87", is
    drawn at (10, 15) on the image that carries the rectangle; the image
    handed to [cv2.imwrite] is the one that carries both, so the file
    written is its encoding. *)
Theorem render_detections_one_detection `{cv : Cv2} (image_path : string)
    (output_path : option string) (w : World) (f : file) (img img1 : Mat)
    (conf : pyfloat) :
  conf = double_0_87 ∨ conf = float_0_87 →
  fs w !! image_path = Some f →
  readable f = true →
  cv_imdecode (data f) = Some img →
  cv_rectangle img (10, 20) (40, 60) (0, 255, 0) 2 = inr img1 →
  let out := resolve_output image_path output_path in
  let r := render_detections image_path [det_3 conf] output_path w in
  label_of (det_3 conf) = "ID:3 0.87" ∧
  contains "3" (label_of (det_3 conf)) ∧
  contains "0.87" (label_of (det_3 conf)) ∧
  (∃ more, trace r.2 =
           trace w ++
           [EvImread image_path;
            EvRectangle (10, 20) (40, 60) (0, 255, 0) 2;
            EvPutText "ID:3 0.87" (10, 15) FONT_HERSHEY_SIMPLEX
              (6 # 10)%Q (0, 255, 0) 2] ++ more) ∧
  (∀ img2,
     cv_putText img1 "ID:3 0.87" (10, 15) FONT_HERSHEY_SIMPLEX (6 # 10)%Q
       (0, 255, 0) 2 = inr img2 →
     trace r.2 =
       trace w ++
       [EvImread image_path;
        EvRectangle (10, 20) (40, 60) (0, 255, 0) 2;
        EvPutText "ID:3 0.87" (10, 15) FONT_HERSHEY_SIMPLEX
          (6 # 10)%Q (0, 255, 0) 2;
        EvImwrite out] ∧
     ∀ encoded,
       cv_imwrite out img2 = WriteOk encoded →
       r.1 = inr (Some out) ∧
       fs r.2 = <[out := File true encoded]> (fs w)).
Proof.
  intros Hconf Hf Hr Hdec Hrect. cbn zeta.
  assert (Hlabel : label_of (det_3 conf) = "ID:3 0.87")
    by (by destruct Hconf as [-> | ->]).
  split; [done|]. rewrite Hlabel.
  split; [by exists "ID:", " 0.87"|]. split; [by exists "ID:3 ", ""|].
  rewrite render_detections_closed. cbn zeta.
  unfold imread_result. rewrite Hf, Hr, Hdec.
  cbn [draw_all draw_trace draw_events]. unfold draw_one.
  change (det_x (det_3 conf)) with 10. change (det_y (det_3 conf)) with 20.
  change (det_w (det_3 conf)) with 30. change (det_h (det_3 conf)) with 40.
  change (10 + 30) with 40. change (20 + 40) with 60.
  change (Z.max 10 (20 - 5)) with 15. rewrite Hrect, Hlabel.
  destruct (cv_putText img1 _ _ _ _ _ _) as [e|img2'].
  { cbn. rewrite ?Hlabel. split; [by exists []|]. by intros img2 [=]. }
  split.
  - destruct (cv_imwrite _ img2'); cbn; rewrite ?Hlabel; eexists; reflexivity.
  - intros img2 [= <-].
    destruct (cv_imwrite _ img2') as [encoded'| |e]; cbn; rewrite ?Hlabel;
      (split; [reflexivity|]); [by intros ? [= <-]|by intros ? [=]|by intros ? [=]].
Qed.

(** X8: when [cv2.imread] gives no image (the file is missing, may not be
    read or does not decode), the failure is reported and [None] returned:
    nothing is drawn, [cv2.imwrite] is not called and no file changes. *)
Theorem render_detections_image_not_loaded `{cv : Cv2} (image_path : string)
    (detections : list det) (output_path : option string) (w : World) :
  imread_result w image_path = None →
  render_detections image_path detections output_path w =
  (inr None,
   mkWorld (fs w) (stdout w ++ ["Failed to load image: " +:+ image_path])
     (trace w ++ [EvImread image_path])).
Proof.
  intros Him. by rewrite render_detections_closed, Him.
Qed.

(** X9: when the image decodes, OpenCV accepts every drawing call and
    writes the file, the file written is the encoding of the image on which
    the detections were drawn one after the other in list order, the path is
    returned, and the calls are [imread], a rectangle and a label per
    detection, and [imwrite]. *)
Theorem render_detections_success `{cv : Cv2} (image_path : string)
    (detections : list det) (output_path : option string) (w : World)
    (img img' : Mat) (encoded : list byte) :
  imread_result w image_path = Some img →
  draw_all detections img = inr img' →
  let out := resolve_output image_path output_path in
  cv_imwrite out img' = WriteOk encoded →
  render_detections image_path detections output_path w =
  (inr (Some out),
   mkWorld (<[out := File true encoded]> (fs w))
     (stdout w ++
      ["Rendering " +:+ str_int (len detections) +:+ " detection(s)...";
       "Saved to " +:+ out])
     (trace w ++ EvImread image_path :: (detections ≫= draw_events) ++
      [EvImwrite out])).
Proof.
  intros Him Hdraw out Hwr.
  rewrite render_detections_closed, Him. cbn zeta. fold out.
  by rewrite Hdraw, Hwr, (draw_trace_success _ _ _ Hdraw).
Qed.

(** X10: whenever [render_detections] returns [None], no file has changed. *)
Theorem render_detections_none_writes_nothing `{cv : Cv2} (image_path : string)
    (detections : list det) (output_path : option string) (w w' : World) :
  render_detections image_path detections output_path w = (inr None, w') →
  fs w' = fs w.
Proof.
  rewrite render_detections_closed. cbn zeta.
  destruct (imread_result w image_path) as [img|]; [|by intros [= <-]].
  destruct (draw_all detections img) as [e|img']; [by intros [= <-]|].
  destruct (cv_imwrite _ img'); [done|done|by intros [= <-]].
Qed.

(** X11: whenever [render_detections] returns a path, it is the output
    path, and the calls made were [imread], then for each detection in list
    order its rectangle and its label, then [imwrite] on that path. *)
Theorem render_detections_some_calls `{cv : Cv2} (image_path : string)
    (detections : list det) (output_path : option string) (w w' : World)
    (q : string) :
  render_detections image_path detections output_path w = (inr (Some q), w') →
  q = resolve_output image_path output_path ∧
  trace w' = trace w ++ EvImread image_path :: (detections ≫= draw_events) ++
             [EvImwrite q].
Proof.
  rewrite render_detections_closed. cbn zeta.
  destruct (imread_result w image_path) as [img|]; [|done].
  destruct (draw_all detections img) as [e|img'] eqn:Hdraw; [done|].
  rewrite (draw_trace_success _ _ _ Hdraw).
  destruct (cv_imwrite _ img'); [|by intros [= <- <-]|done].
  by intros [= <- <-].
Qed.

Lemma draw_all_app `{cv : Cv2} (before rest : list det) (img : Mat) :
  draw_all (before ++ rest) img =
  match draw_all before img with
  | inl e => inl e
  | inr img1 => draw_all rest img1
  end.
Proof.
  revert img. induction before as [|d before IH]; intros img; [done|].
  cbn [app draw_all]. destruct (draw_one d img); [done|apply IH].
Qed.

Lemma draw_trace_app `{cv : Cv2} (before rest : list det) (img img1 : Mat) :
  draw_all before img = inr img1 →
  draw_trace (before ++ rest) img
  = (before ≫= draw_events) ++ draw_trace rest img1.
Proof.
  revert img. induction before as [|d before IH]; intros img.
  - by intros [= ->].
  - cbn [app draw_all draw_trace]. unfold draw_one. rewrite bind_cons.
    destruct (cv_rectangle _ _ _ _ _) as [e|img2]; [done|].
    destruct (cv_putText _ _ _ _ _ _ _) as [e|img3]; [done|].
    intros H. by rewrite (IH _ H), <- app_assoc.
Qed.

(** X12: when OpenCV refuses a call while drawing detection [d], the loop
    stops there.  The detections before [d] have their rectangle and label
    drawn, [d] has its rectangle alone when the rectangle was refused and
    its rectangle and label when the label was, and no call is made for the
    detections after [d]; the exception is reported after the line that
    announced the rendering, [None] is returned, [cv2.imwrite] is not called
    and no file changes. *)
Theorem render_detections_drawing_refused `{cv : Cv2} (image_path : string)
    (before : list det) (d : det) (after : list det)
    (output_path : option string) (w : World) (img img1 : Mat) (e : exn) :
  imread_result w image_path = Some img →
  draw_all before img = inr img1 →
  draw_one d img1 = inl e →
  render_detections image_path (before ++ d :: after) output_path w =
  (inr None,
   mkWorld (fs w)
     (stdout w ++
      ["Rendering " +:+ str_int (len (before ++ d :: after)) +:+
       " detection(s)...";
       "Error rendering: " +:+ str_exn e])
     (trace w ++ EvImread image_path :: (before ≫= draw_events) ++
      take (if cv_rectangle img1 (det_x d, det_y d)
                 (det_x d + det_w d, det_y d + det_h d) (0, 255, 0) 2
            is inl _ then 1 else 2)
        (draw_events d))).
Proof.
  intros Him Hbefore Hd.
  rewrite render_detections_closed, Him. cbn zeta.
  rewrite draw_all_app, Hbefore, (draw_trace_app _ _ _ _ Hbefore).
  cbn [draw_all draw_trace]. rewrite Hd.
  unfold draw_one in Hd.
  destruct (cv_rectangle img1 _ _ _ _) as [e1|img2]; [done|].
  destruct (cv_putText img2 _ _ _ _ _ _) as [e2|img3]; [|done].
  by rewrite app_nil_r.
Qed.

(** X13: the result of [cv2.imwrite] is not looked at: when it returns
    [False], the function still prints that the image was saved and returns
    the path, although no file was written. *)
Theorem render_detections_imwrite_false_unnoticed `{cv : Cv2}
    (image_path : string) (detections : list det)
    (output_path : option string) (w : World) (img img' : Mat) :
  imread_result w image_path = Some img →
  draw_all detections img = inr img' →
  let out := resolve_output image_path output_path in
  cv_imwrite out img' = WriteFalse →
  let res := render_detections image_path detections output_path w in
  res.1 = inr (Some out) ∧
  fs res.2 = fs w ∧
  stdout res.2 =
    stdout w ++
    ["Rendering " +:+ str_int (len detections) +:+ " detection(s)...";
     "Saved to " +:+ out].
Proof.
  intros Him Hdraw out Hwr. cbn zeta.
  rewrite render_detections_closed, Him. cbn zeta. fold out.
  by rewrite Hdraw, Hwr.
Qed.

(** ** More on paths *)

Lemma str_take_drop (n : nat) (s : string) : str_take n s +:+ str_drop n s = s.
Proof.
  revert s. induction n as [|n IH]; intros s; [done|].
  destruct s as [|a s]; [done|]. cbn [str_take str_drop].
  by rewrite str_app_cons, IH.
Qed.

Lemma str_drop_S (n : nat) (s : string) a rest :
  str_drop n s = String a rest → str_drop (S n) s = rest.
Proof.
  revert s. induction n as [|n IH]; intros s.
  - cbn. by intros ->.
  - destruct s as [|b s]; [done|]. cbn [str_drop]. intros H.
    specialize (IH s H). by destruct s.
Qed.

Lemma splitext_scan_some (p : string) (dotIndex : Z) (n : nat) (fi : Z) r :
  splitext_scan p dotIndex n fi = Some r →
  r = (str_take (Z.to_nat dotIndex) p, str_drop (Z.to_nat dotIndex) p).
Proof.
  revert fi. induction n as [|n IH]; intros fi; [done|]. cbn [splitext_scan].
  destruct (negb _); [by intros [= <-]|apply IH].
Qed.

Lemma str_app_nil_r (s : string) : s +:+ "" = s.
Proof. induction s as [|a s IH]; [done|]. by rewrite str_app_cons, IH. Qed.

(** The two parts [splitext] returns make up the path. *)
Lemma splitext_recompose (p : string) :
  (splitext p).1 +:+ (splitext p).2 = p.
Proof.
  unfold splitext. destruct (_ <? _); [|apply str_app_nil_r].
  destruct (splitext_scan _ _ _ _) as [r|] eqn:Hscan.
  - apply splitext_scan_some in Hscan as ->. apply str_take_drop.
  - apply str_app_nil_r.
Qed.

Lemma default_output_path_eq (p : string) :
  default_output_path p = (splitext p).1 +:+ "_detected" +:+ (splitext p).2.
Proof. unfold default_output_path. by destruct (splitext p). Qed.

Lemma default_output_path_length (p : string) :
  String.length (default_output_path p) = (String.length p + 9)%nat.
Proof.
  pose proof (f_equal String.length (splitext_recompose p)) as H.
  rewrite str_length_app in H.
  rewrite default_output_path_eq, !str_length_app.
  change (String.length "_detected") with 9%nat. lia.
Qed.

Lemma default_output_path_neq (p : string) : default_output_path p ≠ p.
Proof.
  intros H. pose proof (default_output_path_length p) as Hl.
  rewrite H in Hl. lia.
Qed.

Lemma prefix_app (sub rest : string) : String.prefix sub (sub +:+ rest) = true.
Proof.
  induction sub as [|a sub IH]; [rewrite str_app_nil; by destruct rest|].
  rewrite str_app_cons.
  cbn [String.prefix]. destruct (ascii_dec a a); [exact IH|congruence].
Qed.

Lemma has_substring_app (before sub after : string) :
  has_substring sub (before +:+ sub +:+ after) = true.
Proof.
  induction before as [|a before IH].
  - rewrite str_app_nil. destruct (sub +:+ after) eqn:E;
      cbn [has_substring]; rewrite <- E, prefix_app; reflexivity.
  - rewrite str_app_cons. cbn [has_substring]. rewrite IH. apply orb_true_r.
Qed.

(** The default output path is never the path of the segment. *)
Lemma default_output_path_not_shm (p : string) : default_output_path p ≠ shm_path.
Proof.
  intros H.
  assert (Hs : has_substring "_detected" (default_output_path p) = true)
    by (rewrite default_output_path_eq; apply has_substring_app).
  rewrite H in Hs. discriminate Hs.
Qed.

Lemma rfind_from_found_or_ge (s : string) c i found :
  found < i → rfind_from s c i found = found ∨ i <= rfind_from s c i found.
Proof.
  revert i found. induction s as [|a s IH]; intros i found Hlt; [by left|].
  cbn [rfind_from]. destruct (Ascii.eqb a c).
  - right. pose proof (rfind_from_bounds s c (i + 1) i). lia.
  - destruct (IH (i + 1) found); [lia|by left|right; lia].
Qed.

(** At the index [rfind] returns, the character is the one looked for. *)
Lemma rfind_from_hit (s : string) c i found :
  found < i → i <= rfind_from s c i found →
  ∃ rest, str_drop (Z.to_nat (rfind_from s c i found - i)) s = String c rest.
Proof.
  revert i found. induction s as [|a s IH]; intros i found Hlt Hge.
  - cbn in Hge. lia.
  - cbn [rfind_from] in *.
    set (found' := if Ascii.eqb a c then i else found) in *.
    assert (Hf' : found' < i + 1) by (subst found'; destruct (Ascii.eqb a c); lia).
    destruct (rfind_from_found_or_ge s c (i + 1) found' Hf') as [Heq|Hge'].
    + rewrite Heq in *. subst found'.
      destruct (Ascii.eqb_spec a c) as [->|]; [|lia].
      replace (i - i) with 0 by lia. by eexists.
    + destruct (IH (i + 1) found' Hf' Hge') as [rest Hrest].
      exists rest.
      replace (Z.to_nat (rfind_from s c (i + 1) found' - i))
        with (S (Z.to_nat (rfind_from s c (i + 1) found' - (i + 1)))) by lia.
      exact Hrest.
Qed.

(** Beyond the index [rfind] returns, the character does not occur. *)
Lemma rfind_from_none_after (s : string) c i found (k : nat) :
  found < i → rfind_from s c i found < i + Z.of_nat k →
  occurs c (str_drop k s) = false.
Proof.
  revert i found k. induction s as [|a s IH]; intros i found k Hlt Hr.
  - by destruct k.
  - cbn [rfind_from] in Hr. destruct k as [|k].
    + cbn [str_drop occurs]. destruct (Ascii.eqb a c).
      * pose proof (rfind_from_bounds s c (i + 1) i). lia.
      * cbn [orb]. apply (IH (i + 1) found 0%nat); lia.
    + cbn [str_drop]. destruct (Ascii.eqb a c).
      * apply (IH (i + 1) i k); lia.
      * apply (IH (i + 1) found k); lia.
Qed.

(** The extension [splitext] returns: nothing, or a dot followed by
    characters that are neither a dot nor a separator. *)
Lemma splitext_ext_shape (p : string) :
  (splitext p).2 = "" ∨
  ∃ ext, (splitext p).2 = "." +:+ ext ∧ is_extension ext.
Proof.
  unfold splitext.
  destruct (Z.ltb_spec (rfind p "/") (rfind p ".")) as [Hlt|]; [|by left].
  destruct (splitext_scan _ _ _ _) as [r|] eqn:Hscan; [|by left].
  apply splitext_scan_some in Hscan as ->. right. cbn [snd].
  pose proof (rfind_from_bounds p "/" 0 (-1) ltac:(lia)) as Hsep.
  fold (rfind p "/") in Hsep.
  destruct (rfind_from_hit p "." 0 (-1) ltac:(lia)) as [rest Hrest].
  { fold (rfind p "."). lia. }
  fold (rfind p ".") in Hrest. rewrite Z.sub_0_r in Hrest.
  exists rest. split; [by rewrite Hrest|]. split.
  - rewrite <- (str_drop_S _ _ _ _ Hrest).
    apply (rfind_from_none_after p "." 0 (-1)); [lia|].
    fold (rfind p "."). lia.
  - assert (H : occurs "/" (str_drop (Z.to_nat (rfind p ".")) p) = false).
    { apply (rfind_from_none_after p "/" 0 (-1)); [lia|].
      fold (rfind p "/"). lia. }
    rewrite Hrest in H. cbn [occurs] in H. by apply orb_false_elim in H as [_ ?].
Qed.

(** X15: [os.path.splitext] cuts the path in two parts that make it up
    again, and the second is empty or a dot followed by characters that are
    neither a dot nor a separator. *)
Theorem splitext_parts (p : string) :
  (splitext p).1 +:+ (splitext p).2 = p ∧
  ((splitext p).2 = "" ∨
   ∃ ext, (splitext p).2 = "." +:+ ext ∧ is_extension ext).
Proof.
  split; [apply splitext_recompose|apply splitext_ext_shape].
Qed.

Lemma str_get_app (j : nat) (p s : string) :
  (j < String.length p)%nat →
  str_take 1 (str_drop j (p +:+ s)) = str_take 1 (str_drop j p).
Proof.
  revert j. induction p as [|a p IH]; intros j Hj; [cbn in Hj; lia|].
  rewrite str_app_cons. destruct j as [|j]; [done|].
  cbn [str_drop]. apply IH. cbn [String.length] in Hj. lia.
Qed.

Lemma splitext_scan_app (p s : string) (dotIndex : Z) (n : nat) (fi : Z) :
  0 <= fi → fi + Z.of_nat n <= Z.of_nat (String.length p) →
  splitext_scan p dotIndex n fi = None →
  splitext_scan (p +:+ s) dotIndex n fi = None.
Proof.
  revert fi. induction n as [|n IH]; intros fi Hfi Hn; [done|].
  cbn [splitext_scan]. rewrite str_get_app by lia.
  destruct (negb _); [done|]. apply IH; lia.
Qed.

Lemma rfind_app_absent (p s : string) c :
  occurs c s = false → rfind (p +:+ s) c = rfind p c.
Proof.
  intros Hs. unfold rfind. by rewrite rfind_from_app, rfind_from_absent.
Qed.

(** X16: the default output path has the extension of the input path: it
    splits into the input's base followed by [_detected], and the input's
    extension, so the image is written in the format the input names. *)
Theorem default_output_path_keeps_extension (p : string) :
  splitext (default_output_path p)
  = ((splitext p).1 +:+ "_detected", (splitext p).2).
Proof.
  rewrite default_output_path_eq.
  destruct (splitext_ext_shape p) as [He|(ext & He & Hext)]; rewrite He.
  - pose proof (splitext_recompose p) as Hp. rewrite He, str_app_nil_r in Hp.
    rewrite Hp. rewrite str_app_nil_r.
    revert He. unfold splitext.
    rewrite !(rfind_app_absent p "_detected") by done.
    destruct (Z.ltb_spec (rfind p "/") (rfind p ".")) as [Hlt|]; [|done].
    pose proof (rfind_from_bounds p "/" 0 (-1) ltac:(lia)) as Hsep.
    pose proof (rfind_from_bounds p "." 0 (-1) ltac:(lia)) as Hdot.
    fold (rfind p "/") in Hsep. fold (rfind p ".") in Hdot.
    destruct (splitext_scan p _ _ _) as [r|] eqn:Hscan.
    + apply splitext_scan_some in Hscan as ->. cbn [snd]. intros He.
      destruct (rfind_from_hit p "." 0 (-1) ltac:(lia)) as [rest Hrest].
      { fold (rfind p "."). lia. }
      fold (rfind p ".") in Hrest. rewrite Z.sub_0_r in Hrest. congruence.
    + intros _. by rewrite splitext_scan_app by (done || lia).
  - rewrite <- str_app_assoc. apply splitext_stem_ext; [|done].
    exists ((splitext p).1 +:+ "_detecte"), "d"%char, "".
    split; [by rewrite str_app_assoc|]. done.
Qed.

(** ** The process on every environment *)

Lemma read_shared_memory_fs order (w : World) :
  fs (read_shared_memory order w).2 = fs w.
Proof.
  rewrite read_shared_memory_cases.
  destruct (fs w !! shm_path) as [f|]; [|done].
  destruct (negb (readable f)); [done|].
  destruct (length (data f) <? SharedData.sizeof)%nat; [done|].
  by destruct (read_entries _ _).
Qed.

Lemma read_shared_memory_no_raise order (w : World) :
  ∃ r w', read_shared_memory order w = (inr r, w').
Proof.
  rewrite read_shared_memory_cases.
  destruct (fs w !! shm_path) as [f|]; [|by eauto].
  destruct (negb (readable f)); [by eauto|].
  destruct (length (data f) <? SharedData.sizeof)%nat; [by eauto|].
  destruct (read_entries _ _); by eauto.
Qed.

(** X17: the process exits with status 0 or 1, and with 0 exactly when it
    has one argument, the image path exists, and the segment exists, may be
    read, can be mapped and has a count within the capacity; what the
    rendering does plays no part. *)
Theorem exit_status_zero_iff `{cv : Cv2} (order : byteorder)
    (argv : list string) (w : World) :
  let status := (exit_status order argv w).1 in
  (status = 0 ∨ status = 1) ∧
  (status = 0 ↔
   length argv = 2%nat ∧
   is_Some (fs w !! nth 1 argv "") ∧
   ∃ f, fs w !! shm_path = Some f ∧ readable f = true ∧
        (SharedData.sizeof ≤ length (data f))%nat ∧
        SharedData.count order (take SharedData.sizeof (data f)) <= MAX_BOXES).
Proof.
  cbn zeta. unfold exit_status. rewrite main_eq.
  destruct (Z.eqb_spec (len argv) 2) as [Hlen|Hlen]; cbn [negb].
  2:{ split; [by right|]. split; [done|]. intros (? & _). unfold len in Hlen. lia. }
  assert (Hl : length argv = 2%nat) by (unfold len in Hlen; lia).
  cbn zeta. destruct (fs w !! nth 1 argv "") as [fi|] eqn:Hfi.
  2:{ split; [by right|]. split; [done|]. by intros (_ & [? [=]] & _). }
  rewrite read_shared_memory_cases. cbn [fs add_trace].
  destruct (fs w !! shm_path) as [f|].
  2:{ split; [by right|]. split; [done|]. by intros (_ & _ & ? & [=] & _). }
  destruct (readable f) eqn:Hr; cbn [negb].
  2:{ split; [by right|]. split; [done|].
      intros (_ & _ & ? & [= <-] & ? & _). congruence. }
  destruct (Nat.ltb_spec (length (data f)) SharedData.sizeof) as [Hsz|Hsz].
  { split; [by right|]. split; [done|].
    intros (_ & _ & ? & [= <-] & _ & ? & _). lia. }
  unfold read_entries.
  destruct (Z.leb_spec (SharedData.count order (take SharedData.sizeof (data f)))
              MAX_BOXES) as [Hc|Hc].
  - match goal with |- context [render_detections ?p ?d ?o ?w0] =>
      destruct (render_detections_returns p d o w0) as (r & w2 & ->) end.
    split; [by left|]. split; [|done]. intros _.
    split; [done|]. split; [by eauto|]. by exists f.
  - split; [by right|]. split; [done|].
    intros (_ & _ & ? & [= <-] & _ & _ & ?). lia.
Qed.

Lemma read_shared_memory_no_imwrite order (w : World) :
  ∃ evs, trace (read_shared_memory order w).2 = trace w ++ evs ∧
         ∀ q, EvImwrite q ∉ evs.
Proof.
  rewrite read_shared_memory_cases.
  assert (Hno : ∀ evs, evs `prefix_of` shm_events ++ [EvMmapClose; EvClose shm_path]
                → ∀ q, EvImwrite q ∉ evs).
  { intros evs [k Hk] q H.
    assert (Hin : EvImwrite q ∈ shm_events ++ [EvMmapClose; EvClose shm_path])
      by (rewrite Hk; apply elem_of_app; by left).
    unfold shm_events in Hin. cbn [app] in Hin.
    repeat (apply elem_of_cons in Hin as [Hin|Hin]; [discriminate|]).
    by apply elem_of_nil in Hin. }
  destruct (fs w !! shm_path) as [f|].
  2:{ eexists. split; [reflexivity|]. apply Hno. by eexists. }
  destruct (negb (readable f)).
  { eexists. split; [reflexivity|]. apply Hno. by eexists. }
  destruct (length (data f) <? SharedData.sizeof)%nat.
  { eexists. split; [reflexivity|]. apply Hno. by eexists. }
  destruct (read_entries _ _).
  - eexists. split; [reflexivity|]. apply Hno. by eexists.
  - eexists. split; [reflexivity|]. apply Hno. by exists [].
Qed.

(** X14: without an output path, the only path [render_detections] hands to
    [cv2.imwrite] is the default output path, whose name is nine characters
    longer than the input path: the function never names the image it reads
    as the file to write. *)
Theorem render_detections_imwrite_target `{cv : Cv2} (image_path : string)
    (detections : list det) (w : World) :
  let r := render_detections image_path detections None w in
  String.length (default_output_path image_path)
  = (String.length image_path + 9)%nat ∧
  ∃ evs, trace r.2 = trace w ++ evs ∧
         ∀ q, EvImwrite q ∈ evs →
              q = default_output_path image_path ∧ q ≠ image_path.
Proof.
  cbn zeta. split; [apply default_output_path_length|].
  destruct (render_detections_output image_path detections None w)
    as ((evs & Htr & Hev) & _).
  exists evs. split; [done|]. intros q Hq.
  rewrite (Hev q Hq). cbn [resolve_output].
  split; [done|apply default_output_path_neq].
Qed.

(** X18: whatever the arguments and the environment, the only path the
    process hands to [cv2.imwrite] is the default output path of its
    argument, and that name is neither the input path nor the path of the
    segment: the process never names the input image or the shared-memory
    segment as the file to write. *)
Theorem main_imwrite_target `{cv : Cv2} (order : byteorder)
    (argv : list string) (w : World) :
  ∃ evs, trace (exit_status order argv w).2 = trace w ++ evs ∧
         ∀ q, EvImwrite q ∈ evs →
              q = default_output_path (nth 1 argv "") ∧
              q ≠ nth 1 argv "" ∧ q ≠ shm_path.
Proof.
  assert (Hgoal : ∀ evs w', trace w' = trace w ++ evs →
            (∀ q, EvImwrite q ∈ evs → q = default_output_path (nth 1 argv "")) →
            ∃ evs, trace w' = trace w ++ evs ∧
              ∀ q, EvImwrite q ∈ evs →
                   q = default_output_path (nth 1 argv "") ∧
                   q ≠ nth 1 argv "" ∧ q ≠ shm_path).
  { intros evs w' Htr Hev. exists evs. split; [done|]. intros q Hq.
    rewrite (Hev q Hq).
    split; [done|].
    split; [apply default_output_path_neq|apply default_output_path_not_shm]. }
  unfold exit_status. rewrite main_eq.
  destruct (negb (len argv =? 2)).
  { apply (Hgoal []); [cbn; by rewrite app_nil_r|]. by intros q H%elem_of_nil. }
  cbn zeta. destruct (fs w !! nth 1 argv "") as [fi|].
  2:{ apply (Hgoal [EvExists (nth 1 argv "")]); [done|].
      by intros q [[=]|H%elem_of_nil]%elem_of_cons. }
  destruct (read_shared_memory_no_imwrite order
              (add_trace [EvExists (nth 1 argv "")] w)) as (evs1 & Htr1 & Hev1).
  assert (Hpre : ∀ q, EvImwrite q ∉ EvExists (nth 1 argv "") :: evs1).
  { intros q [[=]|H]%elem_of_cons. by apply (Hev1 q). }
  destruct (read_shared_memory order _) as [[e|[ds|]] w1]; cbn [snd] in Htr1.
  - apply (Hgoal (EvExists (nth 1 argv "") :: evs1) w1).
    + rewrite Htr1. cbn [trace add_trace]. by rewrite <- app_assoc.
    + intros q H. by apply Hpre in H.
  - destruct (render_detections_output (nth 1 argv "") ds None
                (add_stdout (listing ds) w1)) as ((evs2 & Htr2 & Hev2) & _).
    cbn [resolve_output trace add_stdout] in *.
    assert (Hfinal : trace (render_detections (nth 1 argv "") ds None
                              (add_stdout (listing ds) w1)).2
                     = trace w ++ (EvExists (nth 1 argv "") :: evs1) ++ evs2).
    { rewrite Htr2, Htr1. cbn [trace add_trace]. by rewrite <- !app_assoc. }
    destruct (render_detections _ _ _ _) as [[e|r] w2]; cbn [snd] in Hfinal;
      apply (Hgoal ((EvExists (nth 1 argv "") :: evs1) ++ evs2) w2); try done;
      intros q [H|H]%elem_of_app; (by apply Hpre in H) || by apply Hev2.
  - apply (Hgoal (EvExists (nth 1 argv "") :: evs1) w1).
    + rewrite Htr1. cbn [trace add_trace]. by rewrite <- app_assoc.
    + intros q H. by apply Hpre in H.
Qed.

(** X19: a whole successful run.  The producer wrote the detections [ds]
    and their count, the image decodes, OpenCV accepts every drawing call
    and writes the file: the process lists the detections, writes the
    encoding of the image with all of them drawn to the default output path,
    and exits with status 0. *)
Theorem main_success `{cv : Cv2} (order : byteorder) (prog image_path : string)
    (w : World) (fi fshm : file) (ds : list det) (rest : list byte)
    (img img' : Mat) (encoded : list byte) :
  fs w !! image_path = Some fi →
  readable fi = true →
  cv_imdecode (data fi) = Some img →
  fs w !! shm_path = Some fshm →
  readable fshm = true →
  data fshm = segment order (len ds) ds rest →
  (SharedData.sizeof ≤ length (data fshm))%nat →
  (length ds ≤ 10)%nat →
  Forall valid_det ds →
  draw_all ds img = inr img' →
  let out := default_output_path image_path in
  cv_imwrite out img' = WriteOk encoded →
  exit_status order [prog; image_path] w =
  (0,
   mkWorld (<[out := File true encoded]> (fs w))
     (stdout w ++ listing ds ++
      ["Rendering " +:+ str_int (len ds) +:+ " detection(s)...";
       "Saved to " +:+ out])
     (trace w ++
      [EvExists image_path; EvExists shm_path; EvOpen shm_path;
       EvMmap shm_path SharedData.sizeof; EvMmapClose; EvClose shm_path;
       EvImread image_path] ++ (ds ≫= draw_events) ++ [EvImwrite out])).
Proof.
  intros Hfi Hri Hdec Hfs Hrs Hdata Hsz Hlen Hvalid Hdraw out Hwr.
  unfold exit_status. rewrite main_eq.
  change (len [prog; image_path] =? 2) with true. cbn [negb nth].
  cbn zeta. rewrite Hfi.
  rewrite (read_shared_memory_segment order _ fshm ds rest); try done.
  rewrite (render_detections_closed image_path ds None).
  unfold imread_result. cbn [fs add_stdout add_trace resolve_output].
  rewrite Hfi, Hri, Hdec. cbn zeta. fold out.
  rewrite Hdraw, Hwr, (draw_trace_success _ _ _ Hdraw).
  unfold add_stdout, add_trace, shm_events. cbn [fs stdout trace].
  by rewrite <- !app_assoc.
Qed.

(** ** Rounding *)

(** The rounding of [format(v, '.2f')] is to a nearest integer: the result
    is at most half a unit away from the quotient, and on a tie it is even. *)
Lemma round_half_even_nearest (n d : Z) :
  0 < d →
  2 * Z.abs (n - round_half_even n d * d) <= d ∧
  (2 * Z.abs (n - round_half_even n d * d) = d →
   Z.even (round_half_even n d) = true).
Proof.
  intros Hd. unfold round_half_even.
  pose proof (Z.div_mod n d ltac:(lia)) as Hdm.
  pose proof (Z.mod_pos_bound n d Hd) as Hm.
  set (q := n / d) in *. set (r := n mod d) in *.
  destruct (Z.ltb_spec (2 * r) d) as [H1|H1].
  { split; [nia|]. intros H. nia. }
  destruct (Z.ltb_spec d (2 * r)) as [H2|H2].
  { split; [nia|]. intros H. nia. }
  assert (2 * r = d) by lia.
  destruct (Z.even q) eqn:Hq.
  - split; [nia|done].
  - split; [nia|]. intros _. rewrite Z.even_add, Hq. reflexivity.
Qed.

(** X20: the confidence printed in a label or in the listing is the value
    read, rounded to a nearest hundredth: for a finite value [m * 2^e] the
    digits printed are those of a number of hundredths [h] that is exact
    when [0 <= e], and otherwise at most half a hundredth away from the
    value, and even when the value is halfway. *)
Theorem format_2f_nearest (s : bool) (m : positive) (e : Z) :
  ∃ h, 0 <= h ∧
    format_2f (S754_finite s m e) =
      (if s then "-" else "") +:+ str_int (h / 100) +:+ "." +:+
      two_digits (h mod 100) ∧
    if 0 <=? e then h = Zpos m * 2 ^ e * 100
    else 2 * Z.abs (Zpos m * 100 - h * 2 ^ (- e)) <= 2 ^ (- e) ∧
         (2 * Z.abs (Zpos m * 100 - h * 2 ^ (- e)) = 2 ^ (- e) →
          Z.even h = true).
Proof.
  cbn [format_2f]. destruct (Z.leb_spec 0 e) as [He|He].
  - eexists. split; [|split; reflexivity].
    assert (0 < 2 ^ e) by (apply Z.pow_pos_nonneg; lia). lia.
  - assert (Hd : 0 < 2 ^ (- e)) by (apply Z.pow_pos_nonneg; lia).
    eexists. split; [|split; [reflexivity|by apply round_half_even_nearest]].
    unfold round_half_even.
    assert (0 <= Z.pos m * 100 / 2 ^ (- e)) by (apply Z.div_pos; lia).
    repeat destruct (_ <? _); try destruct (Z.even _); lia.
Qed.

(** ** Reading again, and a corrupt count at the level of the process *)

(** X21: reading does not use up the segment: a second read, in the
    environment the first one leaves, returns what the first returned. *)
Theorem read_shared_memory_repeatable (order : byteorder) (w : World) :
  (read_shared_memory order (read_shared_memory order w).2).1
  = (read_shared_memory order w).1.
Proof.
  pose proof (read_shared_memory_fs order w) as Hfs.
  rewrite (read_shared_memory_cases order (read_shared_memory order w).2), Hfs.
  rewrite (read_shared_memory_cases order w).
  destruct (fs w !! shm_path) as [f|]; [|done].
  destruct (negb (readable f)); [done|].
  destruct (length (data f) <? SharedData.sizeof)%nat; [done|].
  by destruct (read_entries _ _).
Qed.

(** X22: a count beyond the capacity ends the process with status 1 right
    after the failed read: the error is the only line printed, and the image
    is not read. *)
Theorem main_count_beyond_capacity `{cv : Cv2} (order : byteorder)
    (prog image_path : string) (w : World) (fi fshm : file) :
  fs w !! image_path = Some fi →
  fs w !! shm_path = Some fshm →
  readable fshm = true →
  (SharedData.sizeof ≤ length (data fshm))%nat →
  MAX_BOXES < SharedData.count order (take SharedData.sizeof (data fshm)) →
  exit_status order [prog; image_path] w =
  (1,
   mkWorld (fs w)
     (stdout w ++ ["Error reading shared memory: invalid index"])
     (trace w ++ [EvExists image_path; EvExists shm_path; EvOpen shm_path;
                  EvMmap shm_path SharedData.sizeof])).
Proof.
  intros Hfi Hfs Hr Hsz Hc. unfold exit_status. rewrite main_eq.
  change (len [prog; image_path] =? 2) with true. cbn [negb nth]. cbn zeta.
  rewrite Hfi, read_shared_memory_cases. cbn [fs add_trace].
  rewrite Hfs, Hr. cbn [negb].
  destruct (Nat.ltb_spec (length (data fshm)) SharedData.sizeof); [lia|].
  unfold read_entries.
  destruct (Z.leb_spec (SharedData.count order (take SharedData.sizeof (data fshm)))
              MAX_BOXES); [lia|].
  unfold add_stdout, add_trace, shm_events. cbn [fs stdout trace str_exn].
  by rewrite <- !app_assoc.
Qed.

(** ** The further statements on sample environments *)

Lemma read_shared_memory_short_segment_witness :
  read_shared_memory LittleEndian short_shm_world =
  (inr None,
   add_stdout ["Error reading shared memory: mmap length is greater than file size"]
     (add_trace [EvExists shm_path; EvOpen shm_path;
                 EvMmap shm_path SharedData.sizeof] short_shm_world)).
Proof.
  apply (read_shared_memory_short_segment LittleEndian short_shm_world
           (File true (c_int_pack LittleEndian 1 ++ replicate 100 x00))).
  - reflexivity.
  - reflexivity.
  - apply Nat.ltb_lt. reflexivity.
Defined.

Lemma read_shared_memory_permission_denied_witness :
  read_shared_memory LittleEndian unreadable_shm_world =
  (inr None,
   add_stdout ["Error reading shared memory: [Errno 13] Permission denied: '/dev/shm/ipc_yolov4_shm'"]
     (add_trace [EvExists shm_path; EvOpen shm_path] unreadable_shm_world)).
Proof.
  apply (read_shared_memory_permission_denied LittleEndian unreadable_shm_world
           (File false (segment LittleEndian 2 sample_entries []))).
  - reflexivity.
  - reflexivity.
Defined.

Lemma read_shared_memory_result_bounds_witness :
  len (take 2 sample_entries)
  = Z.max 0 (SharedData.count LittleEndian (take SharedData.sizeof segment_2)) ∧
  len (take 2 sample_entries) <= MAX_BOXES ∧
  Forall valid_det (take 2 sample_entries).
Proof.
  apply (read_shared_memory_result_bounds LittleEndian
           (sample_world ppm_image segment_2)
           (add_trace (shm_events ++ [EvMmapClose; EvClose shm_path])
              (sample_world ppm_image segment_2))
           (File true segment_2) (take 2 sample_entries)).
  - reflexivity.
  - vm_compute. reflexivity.
Defined.

Lemma read_shared_memory_ignores_unused_entries_witness :
  (read_shared_memory LittleEndian (sample_world ppm_image segment_1)).1
  = (read_shared_memory LittleEndian (sample_world [] segment_1_noise)).1.
Proof.
  apply (read_shared_memory_ignores_unused_entries LittleEndian
           (sample_world ppm_image segment_1) (sample_world [] segment_1_noise)
           (File true segment_1) (File true segment_1_noise)).
  - reflexivity.
  - reflexivity.
  - reflexivity.
  - reflexivity.
  - apply Nat.leb_le. reflexivity.
  - apply Nat.leb_le. reflexivity.
  - vm_compute. reflexivity.
Defined.

Lemma render_detections_image_not_loaded_witness :
  render_detections (cv := canvas) "sample.ppm" [det_3 float_0_87] None
    undecodable_world =
  (inr None,
   mkWorld (fs undecodable_world)
     (stdout undecodable_world ++ ["Failed to load image: " +:+ "sample.ppm"])
     (trace undecodable_world ++ [EvImread "sample.ppm"])).
Proof.
  apply (render_detections_image_not_loaded (cv := canvas) "sample.ppm"
           [det_3 float_0_87] None undecodable_world).
  reflexivity.
Defined.

Lemma render_detections_success_witness :
  let w := sample_world ppm_image [] in
  let out := resolve_output "sample.ppm" None in
  render_detections (cv := canvas) "sample.ppm" [det_3 float_0_87] None w =
  (inr (Some out),
   mkWorld (<[out := File true (ppm_image ++ [x2a; x2a])]> (fs w))
     (stdout w ++
      ["Rendering " +:+ str_int (len [det_3 float_0_87]) +:+ " detection(s)...";
       "Saved to " +:+ out])
     (trace w ++ EvImread "sample.ppm" :: ([det_3 float_0_87] ≫= draw_events) ++
      [EvImwrite out])).
Proof.
  apply (render_detections_success (cv := canvas) "sample.ppm"
           [det_3 float_0_87] None (sample_world ppm_image [])
           (ppm_image, [])
           (ppm_image,
            [Rect (10, 20) (40, 60) (0, 255, 0) 2;
             Text "ID:3 0.87" (10, 15) 0 (6 # 10)%Q (0, 255, 0) 2])
           (ppm_image ++ [x2a; x2a])).
  - reflexivity.
  - reflexivity.
  - reflexivity.
Defined.

Lemma render_detections_none_writes_nothing_witness :
  fs (mkWorld (fs undecodable_world) ["Failed to load image: sample.ppm"]
        [EvImread "sample.ppm"])
  = fs undecodable_world.
Proof.
  apply (render_detections_none_writes_nothing (cv := canvas) "sample.ppm"
           [] None undecodable_world
           (mkWorld (fs undecodable_world) ["Failed to load image: sample.ppm"]
              [EvImread "sample.ppm"])).
  vm_compute. reflexivity.
Defined.

Lemma render_detections_some_calls_witness :
  "sample_detected.ppm" = resolve_output "sample.ppm" None ∧
  trace (render_detections (cv := canvas) "sample.ppm" [det_3 float_0_87] None
           (sample_world ppm_image [])).2
  = trace (sample_world ppm_image []) ++
    EvImread "sample.ppm" :: ([det_3 float_0_87] ≫= draw_events) ++
    [EvImwrite "sample_detected.ppm"].
Proof.
  apply (render_detections_some_calls (cv := canvas) "sample.ppm"
           [det_3 float_0_87] None (sample_world ppm_image [])
           (render_detections (cv := canvas) "sample.ppm" [det_3 float_0_87]
              None (sample_world ppm_image [])).2
           "sample_detected.ppm").
  vm_compute. reflexivity.
Defined.

Lemma render_detections_imwrite_false_unnoticed_witness :
  let w := sample_world ppm_image [] in
  let out := resolve_output "sample.ppm" None in
  let res := render_detections (cv := strict_canvas) "sample.ppm"
               [det_3 float_0_87] None w in
  res.1 = inr (Some out) ∧
  fs res.2 = fs w ∧
  stdout res.2 =
    stdout w ++
    ["Rendering " +:+ str_int (len [det_3 float_0_87]) +:+ " detection(s)...";
     "Saved to " +:+ out].
Proof.
  apply (render_detections_imwrite_false_unnoticed (cv := strict_canvas)
           "sample.ppm" [det_3 float_0_87] None (sample_world ppm_image [])
           (ppm_image, [])
           (ppm_image,
            [Rect (10, 20) (40, 60) (0, 255, 0) 2;
             Text "ID:3 0.87" (10, 15) 0 (6 # 10)%Q (0, 255, 0) 2])).
  - reflexivity.
  - reflexivity.
  - reflexivity.
Defined.

Lemma main_success_witness :
  let w := sample_world ppm_image segment_2 in
  let ds := take 2 sample_entries in
  let out := default_output_path "sample.ppm" in
  exit_status (cv := canvas) LittleEndian ["objectReaderSHM.py"; "sample.ppm"] w =
  (0,
   mkWorld (<[out := File true (ppm_image ++ [x2a; x2a; x2a; x2a])]> (fs w))
     (stdout w ++ listing ds ++
      ["Rendering " +:+ str_int (len ds) +:+ " detection(s)...";
       "Saved to " +:+ out])
     (trace w ++
      [EvExists "sample.ppm"; EvExists shm_path; EvOpen shm_path;
       EvMmap shm_path SharedData.sizeof; EvMmapClose; EvClose shm_path;
       EvImread "sample.ppm"] ++ (ds ≫= draw_events) ++ [EvImwrite out])).
Proof.
  apply (main_success (cv := canvas) LittleEndian "objectReaderSHM.py"
           "sample.ppm" (sample_world ppm_image segment_2)
           (File true ppm_image) (File true segment_2)
           (take 2 sample_entries)
           (drop 2 sample_entries ≫= Detection.pack LittleEndian)
           (ppm_image, [])
           (ppm_image,
            (take 2 sample_entries ≫= λ d,
               [Rect (det_x d, det_y d) (det_x d + det_w d, det_y d + det_h d)
                  (0, 255, 0) 2;
                Text (label_of d) (det_x d, Z.max 10 (det_y d - 5)) 0
                  (6 # 10)%Q (0, 255, 0) 2]))
           (ppm_image ++ [x2a; x2a; x2a; x2a])).
  - reflexivity.
  - reflexivity.
  - reflexivity.
  - reflexivity.
  - reflexivity.
  - vm_compute. reflexivity.
  - apply Nat.leb_le. reflexivity.
  - apply Nat.leb_le. reflexivity.
  - repeat constructor; unfold valid_c_int, INT_MIN, INT_MAX; simpl; lia.
  - reflexivity.
  - reflexivity.
Defined.

Lemma main_count_beyond_capacity_witness :
  let w := sample_world ppm_image segment_11 in
  exit_status (cv := canvas) LittleEndian ["objectReaderSHM.py"; "sample.ppm"] w =
  (1,
   mkWorld (fs w)
     (stdout w ++ ["Error reading shared memory: invalid index"])
     (trace w ++ [EvExists "sample.ppm"; EvExists shm_path; EvOpen shm_path;
                  EvMmap shm_path SharedData.sizeof])).
Proof.
  apply (main_count_beyond_capacity (cv := canvas) LittleEndian
           "objectReaderSHM.py" "sample.ppm" (sample_world ppm_image segment_11)
           (File true ppm_image) (File true segment_11)).
  - reflexivity.
  - reflexivity.
  - reflexivity.
  - apply Nat.leb_le. reflexivity.
  - reflexivity.
Defined.

Lemma render_detections_default_output_path_witness :
  default_output_path ("shots/frame" +:+ "." +:+ "ppm")
  = "shots/frame" +:+ "_detected." +:+ "ppm" ∧
  (render_detections (cv := canvas) "shots/frame.ppm" [det_3 float_0_87] None
     shots_world).1 = inr (Some "shots/frame_detected.ppm") ∧
  fs (render_detections (cv := canvas) "shots/frame.ppm" [det_3 float_0_87]
        None shots_world).2
  = <["shots/frame_detected.ppm" := File true (ppm_image ++ [x2a; x2a])]>
      (fs shots_world) ∧
  trace (render_detections (cv := canvas) "shots/frame.ppm" [det_3 float_0_87]
           None shots_world).2
  = trace shots_world ++
    [EvImread "shots/frame.ppm";
     EvRectangle (10, 20) (40, 60) (0, 255, 0) 2;
     EvPutText "ID:3 0.87" (10, 15) FONT_HERSHEY_SIMPLEX (6 # 10)%Q
       (0, 255, 0) 2;
     EvImwrite "shots/frame_detected.ppm"].
Proof.
  destruct (render_detections_default_output_path (cv := canvas) "shots/frame"
              "ppm" [det_3 float_0_87] shots_world)
    as (H1 & _ & _ & _ & _ & H6).
  - exists "shots/", "f"%char, "rame".
    split; [reflexivity|]. split; [discriminate|]. split; [discriminate|].
    reflexivity.
  - split; reflexivity.
  - split; [exact H1|].
    apply (H6 (ppm_image, [])
              (ppm_image,
               [Rect (10, 20) (40, 60) (0, 255, 0) 2;
                Text "ID:3 0.87" (10, 15) 0 (6 # 10)%Q (0, 255, 0) 2])
              (ppm_image ++ [x2a; x2a])); reflexivity.
Defined.

Lemma render_detections_one_detection_witness :
  label_of (det_3 float_0_87) = "ID:3 0.87" ∧
  contains "3" (label_of (det_3 float_0_87)) ∧
  contains "0.87" (label_of (det_3 float_0_87)) ∧
  trace (render_detections (cv := canvas) "sample.ppm" [det_3 float_0_87] None
           (sample_world ppm_image [])).2
  = trace (sample_world ppm_image []) ++
    [EvImread "sample.ppm";
     EvRectangle (10, 20) (40, 60) (0, 255, 0) 2;
     EvPutText "ID:3 0.87" (10, 15) FONT_HERSHEY_SIMPLEX (6 # 10)%Q
       (0, 255, 0) 2;
     EvImwrite "sample_detected.ppm"] ∧
  (render_detections (cv := canvas) "sample.ppm" [det_3 float_0_87] None
     (sample_world ppm_image [])).1 = inr (Some "sample_detected.ppm") ∧
  fs (render_detections (cv := canvas) "sample.ppm" [det_3 float_0_87] None
        (sample_world ppm_image [])).2
  = <["sample_detected.ppm" := File true (ppm_image ++ [x2a; x2a])]>
      (fs (sample_world ppm_image [])).
Proof.
  destruct (render_detections_one_detection (cv := canvas) "sample.ppm" None
              (sample_world ppm_image []) (File true ppm_image) (ppm_image, [])
              (ppm_image, [Rect (10, 20) (40, 60) (0, 255, 0) 2]) float_0_87)
    as (H1 & H2 & H3 & _ & H5).
  - right. reflexivity.
  - reflexivity.
  - reflexivity.
  - reflexivity.
  - reflexivity.
  - destruct (H5 (ppm_image,
                  [Rect (10, 20) (40, 60) (0, 255, 0) 2;
                   Text "ID:3 0.87" (10, 15) 0 (6 # 10)%Q (0, 255, 0) 2]))
      as [Htr Hwr]; [reflexivity|].
    destruct (Hwr (ppm_image ++ [x2a; x2a])) as [Hr Hfs]; [reflexivity|].
    repeat split; assumption.
Defined.

Lemma render_detections_drawing_refused_witness :
  render_detections (cv := strict_canvas) "sample.ppm"
    ([det_3 float_0_87] ++ det_overflow :: [det_3 double_0_87]) None
    (sample_world ppm_image []) =
  (inr None,
   mkWorld (fs (sample_world ppm_image []))
     (stdout (sample_world ppm_image []) ++
      ["Rendering 3 detection(s)...";
       "Error rendering: Can't parse 'pt2'. Sequence item with index 0 has a wrong type"])
     (trace (sample_world ppm_image []) ++
      [EvImread "sample.ppm";
       EvRectangle (10, 20) (40, 60) (0, 255, 0) 2;
       EvPutText "ID:3 0.87" (10, 15) FONT_HERSHEY_SIMPLEX (6 # 10)%Q
         (0, 255, 0) 2;
       EvRectangle (2147483647, 0) (2147483648, 1) (0, 255, 0) 2])).
Proof.
  apply (render_detections_drawing_refused (cv := strict_canvas) "sample.ppm"
           [det_3 float_0_87] det_overflow [det_3 double_0_87] None
           (sample_world ppm_image []) (ppm_image, [])
           (ppm_image,
            [Rect (10, 20) (40, 60) (0, 255, 0) 2;
             Text "ID:3 0.87" (10, 15) 0 (6 # 10)%Q (0, 255, 0) 2])
           (Exception "Can't parse 'pt2'. Sequence item with index 0 has a wrong type")).
  - reflexivity.
  - reflexivity.
  - reflexivity.
Defined.
